(** * epicbox.utils: a shallow embedding and its verified properties

    The development follows [src/epicbox/utils.py]:
    - the attach-stream codec [demultiplex_docker_stream];
    - the non-blocking I/O pump [docker_communicate], run against a script
      of answers of the socket, the clock and the engine;
    - the limit translator [merge_limits_defaults] / [create_ulimits], over
      a store of dictionary objects so that aliasing is visible;
    - [truncate_result], [is_killed_by_sigkill_or_sigxcpu] and the client
      cache of [get_docker_client].  *)

From Stdlib Require Import ZArith NArith List Lia.
From Stdlib Require Import Strings.Byte.
From Stdlib Require QArith_base.
From stdpp Require Import base option list strings gmap fin_maps.
From Equations Require Import Equations.

Local Open Scope Z_scope.

(** ** Python values and exceptions *)

Abbreviation bytes := (list byte).

(** The exceptions the modelled functions raise or let through.  An error
    of the operating system is [OSError] with its [errno]; the subclass
    Python gives it ([BrokenPipeError], [ConnectionResetError]) is decided
    from the [errno], see [is_BrokenPipeError] below.  [TimeoutError] is the
    exception [docker_communicate] raises itself, [ValueError] the one the
    constructor of [docker.types.Ulimit] raises. *)
Inductive exn : Type :=
| KeyError (key : string)
| TypeError
| ValueError
| StructError
| TimeoutError
| OSError (errno : Z)
| DockerException.

(** The fragment of Python's objects that limit sets and results hold:
    [None], booleans, integers, text and byte strings. *)
Inductive value : Type :=
| VNone
| VBool (b : bool)
| VInt (n : Z)
| VStr (s : string)
| VBytes (bs : bytes).

#[global] Instance exn_eq_dec : EqDecision exn.
Proof. solve_decision. Defined.

#[global] Instance byte_eq_dec : EqDecision byte := Byte.byte_eq_dec.

#[global] Instance value_eq_dec : EqDecision value.
Proof. solve_decision. Defined.

(** ** Byte strings: slices and [struct.unpack_from] *)

Module Bytes.

Definition len (data : bytes) : Z := Z.of_nat (length data).

(** Python's clamping of one slice bound against a length. *)
Definition clamp (n i : Z) : Z :=
  if i <? 0 then Z.max 0 (i + n) else Z.min i n.

(** [data[lo:hi]]. *)
Definition slice (data : bytes) (lo hi : Z) : bytes :=
  let lo' := clamp (len data) lo in
  let hi' := clamp (len data) hi in
  take (Z.to_nat (hi' - lo')) (drop (Z.to_nat lo') data).

(** [data[:hi]] and [data[lo:]]. *)
Definition slice_to (data : bytes) (hi : Z) : bytes := slice data 0 hi.
Definition slice_from (data : bytes) (lo : Z) : bytes :=
  slice data lo (len data).

Definition byte_val (b : byte) : N := Byte.to_N b.

(** The four bytes of a [>L] field, most significant first. *)
Definition be32 (b4 b5 b6 b7 : byte) : N :=
  N.lor (N.shiftl (byte_val b4) 24)
    (N.lor (N.shiftl (byte_val b5) 16)
       (N.lor (N.shiftl (byte_val b6) 8) (byte_val b7))).

(** [struct.unpack_from(">BxxxL", header)]: one unsigned byte, three pad
    bytes, one unsigned 32-bit big-endian integer; [struct.error] when
    the buffer holds fewer than 8 bytes. *)
Definition unpack_BxxxL (header : bytes) : exn + (N * N) :=
  match header with
  | b0 :: _ :: _ :: _ :: b4 :: b5 :: b6 :: b7 :: _ =>
      inr (byte_val b0, be32 b4 b5 b6 b7)
  | _ => inl StructError
  end.

End Bytes.

(** ** The stream codec *)

Definition STREAM_HEADER_SIZE_BYTES : Z := 8.

(** The body of the [while] loop of [demultiplex_docker_stream]; the
    loop ends because [walker] grows by at least the header size. *)
Equations? demux_loop (data : bytes) (walker : Z)
    (stdout_chunks stderr_chunks : list bytes)
    : exn + (list bytes * list bytes)
    by wf (Z.to_nat (Bytes.len data - walker)) lt :=
  demux_loop data walker stdout_chunks stderr_chunks
    with Z_ge_dec (Bytes.len data - walker) 8 := {
    | right _ => inr (stdout_chunks, stderr_chunks)
    | left _ with Bytes.unpack_BxxxL
          (Bytes.slice data walker (walker + STREAM_HEADER_SIZE_BYTES)) := {
      | inl e => inl e
      | inr (stream_type, length) =>
          let start := walker + STREAM_HEADER_SIZE_BYTES in
          let end_ := start + Z.of_N length in
          if (stream_type =? 1)%N then
            demux_loop data end_
              (stdout_chunks ++ [Bytes.slice data start end_]) stderr_chunks
          else if (stream_type =? 2)%N then
            demux_loop data end_
              stdout_chunks (stderr_chunks ++ [Bytes.slice data start end_])
          else
            demux_loop data end_ stdout_chunks stderr_chunks } }.
Proof. all: unfold STREAM_HEADER_SIZE_BYTES in *; lia. Qed.

Definition demultiplex_docker_stream (data : bytes) : exn + (bytes * bytes) :=
  match demux_loop data 0 [] [] with
  | inl e => inl e
  | inr (stdout_chunks, stderr_chunks) =>
      inr (concat stdout_chunks, concat stderr_chunks)
  end.

(** ** Errors and the object store *)

(** Code that may raise: [inl e] is the exception [e] in flight. *)
#[global] Instance exn_ret : MRet (sum exn) := fun _ x => inr x.
#[global] Instance exn_bind : MBind (sum exn) := fun _ _ f m =>
  match m with inl e => inl e | inr x => f x end.

Definition raise {A} (e : exn) : exn + A := inl e.

Abbreviation loc := positive.
Abbreviation dict := (gmap string value).

(** The dictionary objects alive in the process, by identity. *)
Abbreviation store := (gmap loc dict).

(** Code that reads and updates dictionary objects and may raise; the
    store is returned also when an exception leaves the function. *)
Definition Py (A : Type) : Type := store -> (exn + A) * store.

#[global] Instance Py_ret : MRet Py := fun _ x h => (inr x, h).
#[global] Instance Py_bind : MBind Py := fun _ _ f m h =>
  match m h with
  | (inl e, h') => (inl e, h')
  | (inr x, h') => f x h'
  end.

Definition throw {A} (e : exn) : Py A := fun h => (inl e, h).
Definition lift {A} (r : exn + A) : Py A := fun h => (r, h).

Module Dict.

(** Reading the object behind a reference. A reference held by running
    code denotes a live dictionary; for any other the model answers
    [TypeError], so that reading is total. *)
Definition get (l : loc) : Py dict := fun h =>
  match h !! l with
  | Some d => (inr d, h)
  | None => (inl TypeError, h)
  end.

(** [d[key]]. *)
Definition getitem (d : dict) (key : string) : exn + value :=
  match d !! key with
  | Some v => inr v
  | None => raise (KeyError key)
  end.

(** [key in d]. *)
Definition contains (d : dict) (key : string) : bool :=
  bool_decide (is_Some (d !! key)).

(** Overwriting the object behind a reference. *)
Definition put (l : loc) (d : dict) : Py unit := fun h =>
  (inr tt, <[l := d]> h).

(** [l[key] = v], in place. *)
Definition setitem (l : loc) (key : string) (v : value) : Py unit :=
  d ← get l; put l (<[key := v]> d).

End Dict.

(** Truth value of an object ([if x:], [not x], [x or y]). *)
Definition truthy (v : value) : bool :=
  match v with
  | VNone => false
  | VBool b => b
  | VInt n => negb (n =? 0)
  | VStr s => negb (String.eqb s "")
  | VBytes bs => negb (bool_decide (bs = []))
  end.

Fixpoint str_repeat (n : nat) (s : string) : string :=
  match n with O => EmptyString | S n' => String.append s (str_repeat n' s) end.

(** [v * k] for an integer [k]. *)
Definition py_mul_int (v : value) (k : Z) : exn + value :=
  match v with
  | VNone => raise TypeError
  | VBool b => inr (VInt ((if b then 1 else 0) * k))
  | VInt n => inr (VInt (n * k))
  | VStr s => inr (VStr (str_repeat (Z.to_nat k) s))
  | VBytes bs => inr (VBytes (concat (replicate (Z.to_nat k) bs)))
  end.

(** [len(v)]. *)
Definition py_len (v : value) : exn + Z :=
  match v with
  | VStr s => inr (Z.of_nat (String.length s))
  | VBytes bs => inr (Bytes.len bs)
  | _ => raise TypeError
  end.

(** [v[:n]] for [0 <= n]. *)
Definition py_slice_to (v : value) (n : Z) : exn + value :=
  match v with
  | VStr s => inr (VStr (String.substring 0 (Z.to_nat n) s))
  | VBytes bs => inr (VBytes (Bytes.slice_to bs n))
  | _ => raise TypeError
  end.

(** [v + suffix] for a byte string [suffix]. *)
Definition py_add_bytes (v : value) (suffix : bytes) : exn + value :=
  match v with
  | VBytes bs => inr (VBytes (bs ++ suffix))
  | _ => raise TypeError
  end.

(** ** The configuration module

    [epicbox.config] is read at call time. Its values are not part of the
    sources at hand, so the functions take the module as a parameter.
    [DEFAULT_LIMITS] is a reference to one shared dictionary object.

    [config.DOCKER_MAX_READ_RETRIES] is not among the fields: it is read
    once, when [get_docker_client] is defined, as the default of
    [retry_read], and never at call time. A caller that relies on the
    default carries the value bound then, see [default_retry_read] below. *)
Record config : Type := {
  DEFAULT_LIMITS : loc;
  CPU_TO_REAL_TIME_FACTOR : Z;
  DOCKER_URL : string;
  DOCKER_TIMEOUT : Z;
  DOCKER_MAX_TOTAL_RETRIES : Z;
  DOCKER_MAX_CONNECT_RETRIES : Z;
  DOCKER_BACKOFF_FACTOR : QArith_base.Q;
}.

(** ** The limit translator *)

Section Limits.

Variable cfg : config.

(** One round of the [for] loop: a default fills a missing field of the
    object [limits]. *)
Definition fill_default (limits : loc) (limit_name : string)
    (default_value : value) : Py unit :=
  d ← Dict.get limits;
  if Dict.contains d limit_name then mret tt
  else Dict.setitem limits limit_name default_value.

(** [limits] is [None] or a reference to the caller's dictionary; the
    result is a reference too. The rounds of the [for] loop do not depend
    on one another, so the order in which [map_fold] visits the items of
    the defaults does not show in the mapping that results. *)
Definition merge_limits_defaults (limits : option loc) : Py loc :=
  match limits with
  | None => mret (DEFAULT_LIMITS cfg)
  | Some limits =>
      d ← Dict.get limits;
      if bool_decide (d = ∅) then mret (DEFAULT_LIMITS cfg)
      else
        let is_realtime_specified := Dict.contains d "realtime" in
        defaults ← Dict.get (DEFAULT_LIMITS cfg);
        map_fold (fun limit_name default_value (done_ : Py unit) =>
                    done_ ;; fill_default limits limit_name default_value)
                 (mret tt) defaults ;;
        (if negb is_realtime_specified then
           d ← Dict.get limits;
           cputime ← lift (Dict.getitem d "cputime");
           realtime ← lift (py_mul_int cputime (CPU_TO_REAL_TIME_FACTOR cfg));
           Dict.setitem limits "realtime" realtime
         else mret tt) ;;
        mret limits
  end.

End Limits.

(** A [docker.types.Ulimit], as the fields it was built with. *)
Record Ulimit : Type := { name : string; soft : value; hard : value }.

(** [isinstance(v, int)]; a boolean is an integer in Python. *)
Definition is_int (v : value) : bool :=
  match v with
  | VInt _ | VBool _ => true
  | _ => false
  end.

(** [Ulimit(name=..., soft=..., hard=...)]. The constructor of the library
    checks its arguments: a [soft] or [hard] that is truthy and not an
    integer is refused with [ValueError]. The name is a text in both calls
    of [create_ulimits], so the check of the name always passes. *)
Definition new_Ulimit (name : string) (soft hard : value) : exn + Ulimit :=
  if truthy soft && negb (is_int soft) then raise ValueError
  else if truthy hard && negb (is_int hard) then raise ValueError
  else mret {| name := name; soft := soft; hard := hard |}.

Definition create_ulimits (limits : dict) : exn + option (list Ulimit) :=
  let ulimits := [] in
  cputime ← Dict.getitem limits "cputime";
  ulimits ←
    (if truthy cputime then
       cpu ← Dict.getitem limits "cputime";
       entry ← new_Ulimit "cpu" cpu cpu;
       mret (ulimits ++ [entry])
     else mret ulimits);
  ulimits ←
    (match limits !! "file_size" with
     | Some fsize =>
         entry ← new_Ulimit "fsize" fsize fsize;
         mret (ulimits ++ [entry])
     | None => mret ulimits
     end);
  mret (match ulimits with [] => None | _ => Some ulimits end).

(** ** Results *)

Definition MAX_OUTPUT_LENGTH : Z := 100.

Definition truncation_marker : bytes :=
  Eval cbv in String.list_byte_of_string " *** truncated ***".

(** The value stored under key [k] by one round of the loop. *)
Definition truncate_value (k : string) (v : value) : exn + value :=
  if bool_decide (k ∈ ({["stdout"; "stderr"]} : gset string)) then
    n ← py_len v;
    if n >? MAX_OUTPUT_LENGTH then
      head ← py_slice_to v MAX_OUTPUT_LENGTH;
      py_add_bytes head truncation_marker
    else mret v
  else mret v.

Definition truncate_result (result : dict) : exn + dict :=
  map_fold (fun k v (acc : exn + dict) =>
              truncated ← acc;
              v' ← truncate_value k v;
              mret (<[k := v']> truncated))
           (mret ∅) result.

Definition SIGKILL : Z := 9.
Definition SIGXCPU : Z := 24.

Definition is_killed_by_sigkill_or_sigxcpu (status : Z) : bool :=
  bool_decide (status - 128 ∈ ({[SIGKILL; SIGXCPU]} : gset Z)).

(** ** The client cache *)

Module Client.

Record Retry : Type := {
  total : Z;
  connect : Z;
  read : Z;
  status_forcelist : list Z;
  backoff_factor : QArith_base.Q;
  raise_on_status : bool;
}.

(** A [docker.DockerClient]: what it was built with, and the adapter
    mounted on its API for [http://]. *)
Record DockerClient : Type := {
  base_url : string;
  timeout : Z;
  http_adapter : option Retry;
}.

Abbreviation client_key := (Z * list Z)%type.

(** The module-level dictionary [_DOCKER_CLIENTS] and the client objects
    alive, by identity. *)
Record clients : Type := {
  _DOCKER_CLIENTS : gmap client_key loc;
  objects : gmap loc DockerClient;
}.

Definition no_clients : clients :=
  {| _DOCKER_CLIENTS := ∅; objects := ∅ |}.

(** [base_url or config.DOCKER_URL]. *)
Definition url_or (base_url : option string) (default : string) : string :=
  match base_url with
  | Some u => if String.eqb u "" then default else u
  | None => default
  end.

Definition get_docker_client (cfg : config) (base_url : option string)
    (retry_read : Z) (retry_status_forcelist : list Z) (st : clients)
    : loc * clients :=
  let client_key := (retry_read, retry_status_forcelist) in
  match _DOCKER_CLIENTS st !! client_key with
  | Some client => (client, st)
  | None =>
      let client := fresh (dom (objects st)) in
      let retries :=
        {| total := DOCKER_MAX_TOTAL_RETRIES cfg;
           connect := DOCKER_MAX_CONNECT_RETRIES cfg;
           read := retry_read;
           status_forcelist := retry_status_forcelist;
           backoff_factor := DOCKER_BACKOFF_FACTOR cfg;
           raise_on_status := false |} in
      let object :=
        {| base_url := url_or base_url (DOCKER_URL cfg);
           timeout := DOCKER_TIMEOUT cfg;
           http_adapter := Some retries |} in
      (client,
       {| _DOCKER_CLIENTS := <[client_key := client]> (_DOCKER_CLIENTS st);
          objects := <[client := object]> (objects st) |})
  end.

(** Building the client can fail: [docker.DockerClient(...)] raises when
    it cannot be set up for the URL. The exception then leaves
    [get_docker_client] at line 44, before the key is stored at line 58,
    so nothing is cached. [built] is what building answers, should the call
    have to build a client; [get_docker_client] above is the call whose
    client can be built. *)
Definition get_docker_client_or_raise (built : exn + unit) (cfg : config)
    (base_url : option string) (retry_read : Z)
    (retry_status_forcelist : list Z) (st : clients)
    : (exn + loc) * clients :=
  match _DOCKER_CLIENTS st !! (retry_read, retry_status_forcelist), built with
  | None, inl e => (inl e, st)
  | _, _ =>
      let '(client, st) :=
        get_docker_client cfg base_url retry_read retry_status_forcelist st in
      (inr client, st)
  end.

(** One call, as its arguments. *)
Record request : Type := {
  req_base_url : option string;
  req_retry_read : Z;
  req_retry_status_forcelist : list Z;
}.

Definition serve (cfg : config) (st : clients) (r : request) : clients :=
  snd (get_docker_client cfg (req_base_url r) (req_retry_read r)
         (req_retry_status_forcelist r) st).

(** The cache after a sequence of calls. *)
Definition serve_all (cfg : config) (st : clients) (rs : list request)
    : clients :=
  fold_left (serve cfg) rs st.

End Client.

(** ** The I/O pump *)

Definition EINTR : Z := 4.
Definition EWOULDBLOCK : Z := 11.
Definition EPIPE : Z := 32.
Definition EDEADLK : Z := 35.
Definition ECONNRESET : Z := 104.
Definition ESHUTDOWN : Z := 108.

(** Recoverable IO/OS Errors. *)
Definition ERRNO_RECOVERABLE : list Z := [EINTR; EDEADLK; EWOULDBLOCK].

(** [except BrokenPipeError] and [except ConnectionResetError]. *)
Definition is_BrokenPipeError (e : exn) : bool :=
  match e with
  | OSError n => (n =? EPIPE) || (n =? ESHUTDOWN)
  | _ => false
  end.

Definition is_ConnectionResetError (e : exn) : bool :=
  match e with
  | OSError n => n =? ECONNRESET
  | _ => false
  end.

(** The calls made on the socket and on the container. *)
Inductive call : Type :=
| AttachSocket
| SetBlocking (flag : bool)
| ShutdownWrite
| ContainerStart
| Select
| SocketRead
| SocketWrite (data : bytes)
| Sleep
| SocketClose
| ContainerStop
| ContainerKill
| ContainerRemove.

#[global] Instance call_eq_dec : EqDecision call.
Proof. solve_decision. Defined.

(** The pump runs against the answers of its surroundings: [setup] for
    the calls before the loop, one [tick] for each round of the loop. Times
    are exact numbers in one unit ([time.monotonic()] and [timeout] are
    compared without rounding). [setblocking], [shutdown], [close] and
    [time.sleep] are taken to succeed; the calls that can fail are the
    building of the client, [attach_socket], [container.start],
    [select.select], the read and the write. *)

(** What the call finds before the loop: the default of [retry_read] that
    [get_docker_client] was defined with (the value
    [config.DOCKER_MAX_READ_RETRIES] had when the module was loaded), what
    building a client answers should one have to be built, what the engine
    answers to [attach_socket] and to [container.start], and the clock when
    the loop is entered. *)
Record setup : Type := {
  default_retry_read : Z;
  client : exn + unit;
  attach_socket : exn + unit;
  start : exn + unit;
  start_time : Z;
}.

(** Getting to the attached socket (lines 184 to 195), when a client has
    to be built: the client, then the socket. *)
Definition attach (env : setup) : exn + unit :=
  client env ;; attach_socket env.

(** What the world answers during one round of the loop: the clock at the
    loop test, [select.select], [docker_socket_read] and [os.write].  The
    last two are consulted only when the round reaches them. *)
Record tick : Type := {
  now : Z;
  sel : exn + (bool * bool);
  rd : exn + option bytes;
  wr : exn + Z;
}.

Record pump : Type := {
  stream_data : bytes;
  stdin : option bytes;
  sock_closed : bool;
  calls : list call;
}.

Definition record (c : call) (st : pump) : pump :=
  {| stream_data := stream_data st; stdin := stdin st;
     sock_closed := sock_closed st; calls := calls st ++ [c] |}.

Definition close (st : pump) : pump :=
  {| stream_data := stream_data st; stdin := stdin st;
     sock_closed := true; calls := calls st ++ [SocketClose] |}.

(** [bool(stdin)]. *)
Definition has_input (st : pump) : bool :=
  match stdin st with
  | None | Some [] => false
  | Some _ => true
  end.

(** [_socket_read]: [docker_socket_read(sock, n) or None]. *)
Definition _socket_read (answer : exn + option bytes) : exn + option bytes :=
  data ← answer;
  mret (match data with
        | None | Some [] => None
        | Some _ => data
        end).

(** [_socket_write]: a recoverable [errno] counts as nothing written. *)
Definition _socket_write (answer : exn + Z) : exn + Z :=
  match answer with
  | inl (OSError errno) =>
      if bool_decide (errno ∈ ERRNO_RECOVERABLE) then inr 0
      else inl (OSError errno)
  | _ => answer
  end.

(** How one round of the loop ends. *)
Inductive round : Type :=
| Continue (st : pump)
| Break (st : pump)
| Propagate (e : exn) (st : pump).

Definition read_part (t : tick) (st : pump) : round :=
  let st := record SocketRead st in
  match _socket_read (rd t) with
  | inl e => if is_ConnectionResetError e then Break st else Propagate e st
  | inr None => Break st
  | inr (Some data) =>
      Continue {| stream_data := stream_data st ++ data; stdin := stdin st;
                  sock_closed := sock_closed st; calls := calls st |}
  end.

Definition write_part (t : tick) (st : pump) : round :=
  let input := default [] (stdin st) in
  let st := record (SocketWrite input) st in
  match _socket_write (wr t) with
  | inl e => if is_BrokenPipeError e then Break st else Propagate e st
  | inr written =>
      let st := {| stream_data := stream_data st;
                   stdin := Some (Bytes.slice_from input written);
                   sock_closed := sock_closed st; calls := calls st |} in
      Continue (if has_input st then st else record ShutdownWrite st)
  end.

Definition loop_body (t : tick) (st : pump) : round :=
  match sel t with
  | inl e => Propagate e (record Select st)
  | inr (read_ready, write_ready) =>
      let st := record Select st in
      let is_io_active := read_ready || (write_ready && has_input st) in
      match (if read_ready then read_part t st else Continue st) with
      | Continue st =>
          match (if write_ready && has_input st then write_part t st
                 else Continue st) with
          | Continue st =>
              Continue (if negb is_io_active then record Sleep st else st)
          | r => r
          end
      | r => r
      end
  end.

(** The call as seen from outside: a result, an exception, or still inside
    the loop when the script of answers is used up. *)
Inductive outcome : Type :=
| Returned (r : bytes * bytes)
| Raised (e : exn)
| Waiting.

(** [while timeout is None or time.monotonic() - start_time < timeout]. *)
Definition loop_test (start_time : Z) (timeout : option Z) (t : tick) : bool :=
  match timeout with
  | None => true
  | Some limit => now t - start_time <? limit
  end.

Definition finish (st : pump) : outcome * pump :=
  let st := close st in
  match demultiplex_docker_stream (stream_data st) with
  | inl e => (Raised e, st)
  | inr r => (Returned r, st)
  end.

Fixpoint communicate_loop (start_time : Z) (timeout : option Z)
    (script : list tick) (st : pump) : outcome * pump :=
  match script with
  | [] => (Waiting, st)
  | t :: script' =>
      if loop_test start_time timeout t then
        match loop_body t st with
        | Continue st' => communicate_loop start_time timeout script' st'
        | Break st' => finish st'
        | Propagate e st' => (Raised e, st')
        end
      else (Raised TimeoutError, close st)
  end.

(** The call itself. The state it returns is the one at the moment the
    call is left; [cache] is the client cache, through which the client
    that attaches is obtained. An exception raised while the client is
    built leaves the call before there is a socket. *)
Definition docker_communicate (cfg : config) (env : setup)
    (script : list tick) (stdin : option bytes) (start_container : bool)
    (timeout : option Z) (cache : Client.clients)
    : outcome * pump * Client.clients :=
  let st := {| stream_data := []; stdin := stdin; sock_closed := false;
               calls := [] |} in
  match Client.get_docker_client_or_raise (client env) cfg None
          (default_retry_read env) [404; 500] cache with
  | (inl e, cache) => (Raised e, st, cache)
  | (inr docker_client, cache) =>
      match attach_socket env with
      | inl e => (Raised e, st, cache)
      | inr _ =>
          let st := record (SetBlocking false) (record AttachSocket st) in
          let st := if has_input st then st else record ShutdownWrite st in
          match (if start_container then start env else inr tt) with
          | inl e => (Raised e, record ContainerStart st, cache)
          | inr _ =>
              let st :=
                if start_container then record ContainerStart st else st in
              (communicate_loop (start_time env) timeout script st, cache)
          end
      end
  end.

(** ** The wire format, seen from the engine

    The layout the docstring of [demultiplex_docker_stream] describes: one
    byte for the stream, three bytes that are not read, the payload length
    as four bytes in big-endian order, then the payload. *)

Module Wire.

Definition byte_of (n : N) : byte :=
  default "000"%byte (Byte.of_N (n mod 256)).

Definition be32_bytes (n : N) : bytes :=
  [byte_of (n / 2 ^ 24); byte_of (n / 2 ^ 16); byte_of (n / 2 ^ 8);
   byte_of n]%N.

Record frame : Type := {
  selector : byte;
  reserved : byte * byte * byte;
  payload : bytes;
}.

Definition encode (f : frame) : bytes :=
  let '(r1, r2, r3) := reserved f in
  [selector f; r1; r2; r3]
    ++ be32_bytes (N.of_nat (length (payload f))) ++ payload f.

(** A frame of one of the two output streams whose length fits the
    32-bit field. *)
Definition valid (f : frame) : Prop :=
  (Bytes.byte_val (selector f) = 1 \/ Bytes.byte_val (selector f) = 2)%N
  /\ (N.of_nat (length (payload f)) < 2 ^ 32)%N.

(** The payloads of the frames of stream [s], in order. *)
Definition payloads_of (s : N) (frames : list frame) : bytes :=
  concat (map payload
            (filter (fun f => Bytes.byte_val (selector f) = s) frames)).

End Wire.

(** ** Notions used in the statements *)

(** What the caller supplied, as a dictionary: nothing for [None]. *)
Definition supplied (h : store) (limits : option loc) : dict :=
  match limits with
  | Some l => default ∅ (h !! l)
  | None => ∅
  end.

(** What the design note asks of the merge: every object alive before the
    call is left as it was, and the result is an object that was not
    there before. *)
Definition merges_into_fresh (cfg : config) (limits : option loc) (h : store)
    : Prop :=
  forall r h', merge_limits_defaults cfg limits h = (inr r, h') ->
    (forall l, is_Some (h !! l) -> h' !! l = h !! l) /\ h !! r = None.

Definition cpu_entry (cputime : value) : Ulimit :=
  {| name := "cpu"; soft := cputime; hard := cputime |}.
Definition fsize_entry (file_size : value) : Ulimit :=
  {| name := "fsize"; soft := file_size; hard := file_size |}.

(** The calls that would end the container. *)
Definition stops_container (c : call) : bool :=
  match c with
  | ContainerStop | ContainerKill | ContainerRemove => true
  | _ => false
  end.

(** A round whose answers raise nothing but what the loop catches. *)
Definition tolerated (t : tick) : bool :=
  match sel t with
  | inl _ => false
  | inr _ =>
      match _socket_read (rd t) with
      | inl e => is_ConnectionResetError e
      | inr _ => true
      end
      && match _socket_write (wr t) with
         | inl e => is_BrokenPipeError e
         | inr _ => true
         end
  end.

(** A round whose answers hold an end of the session: end of file or a
    reset connection on a ready read, a broken pipe on a ready write. *)
Definition ends_session (t : tick) : Prop :=
  exists read_ready write_ready,
    sel t = inr (read_ready, write_ready)
    /\ ((read_ready = true
         /\ (_socket_read (rd t) = inr None
             \/ exists e, _socket_read (rd t) = inl e
                          /\ is_ConnectionResetError e = true))
        \/ (write_ready = true
            /\ exists e, _socket_write (wr t) = inl e
                         /\ is_BrokenPipeError e = true)).

Definition state_of (r : round) : pump :=
  match r with Continue st | Break st | Propagate _ st => st end.

(** What the claim asks of a finished call, as it is stated: the decoded
    buffer is returned or [TimeoutError] is raised, and the socket is
    closed. *)
Definition one_of_two_outcomes (oc : outcome) (st : pump) : Prop :=
  ((exists r, oc = Returned r
              /\ demultiplex_docker_stream (stream_data st) = inr r)
   \/ oc = Raised TimeoutError)
  /\ sock_closed st = true.

(** [st'] comes after [st]: the socket is as open or closed as it was,
    and the calls made since do not touch the life of the container. *)
Definition extends (st st' : pump) : Prop :=
  sock_closed st' = sock_closed st
  /\ exists new, calls st' = calls st ++ new
                 /\ Forall (fun c => stops_container c = false) new.

(** ** The rounds of a session, read off the answers

    What the docstring and the comments of [docker_communicate] say of a
    round, in terms of the answers alone: whether it ends the session,
    which error it lets through, and what it does to the input. [input] is
    what is left to send when the round begins. *)

(** [bool(stdin)], of the input itself. *)
Definition left_to_send (input : option bytes) : bool :=
  match input with
  | None | Some [] => false
  | Some _ => true
  end.

(** The read of the round ends the session: end of file, or the
    connection was reset. *)
Definition read_ends (t : tick) : bool :=
  match _socket_read (rd t) with
  | inr None => true
  | inr (Some _) => false
  | inl e => is_ConnectionResetError e
  end.

(** The write of the round ends the session: a broken pipe. *)
Definition write_ends (t : tick) : bool :=
  match _socket_write (wr t) with
  | inl e => is_BrokenPipeError e
  | inr _ => false
  end.

(** The round ends the session: the socket is ready for reading and the
    read ends it, or the socket is ready for writing, there is input left
    and the write ends it. *)
Definition session_ends (input : option bytes) (t : tick) : bool :=
  match sel t with
  | inr (read_ready, write_ready) =>
      read_ready && read_ends t
      || write_ready && left_to_send input && write_ends t
  | inl _ => false
  end.

(** The error the round lets through: one that [select] raised, one that a
    ready read raised and that is not a reset connection, or, when the read
    (if any) gave data, one that a write of input left raised and that is
    neither recoverable nor a broken pipe. *)
Definition lets_through (input : option bytes) (t : tick) (e : exn) : Prop :=
  sel t = inl e
  \/ exists read_ready write_ready,
      sel t = inr (read_ready, write_ready)
      /\ ((read_ready = true
           /\ _socket_read (rd t) = inl e
           /\ is_ConnectionResetError e = false)
          \/ ((read_ready = true ->
               exists data, _socket_read (rd t) = inr (Some data))
              /\ write_ready = true
              /\ left_to_send input = true
              /\ _socket_write (wr t) = inl e
              /\ is_BrokenPipeError e = false)).

(** The input left after a round that goes on: a ready write, with input
    left, takes off its front what the socket accepted ([stdin[written:]]). *)
Definition input_after (input : option bytes) (t : tick) : option bytes :=
  match sel t, _socket_write (wr t) with
  | inr (_, true), inr written =>
      if left_to_send input
      then Some (Bytes.slice_from (default [] input) written)
      else input
  | _, _ => input
  end.

(** The input left after some rounds that go on. *)
Definition input_left (input : option bytes) (rounds : list tick)
    : option bytes :=
  fold_left input_after rounds input.

(** None of the rounds ends the session. *)
Fixpoint goes_on (input : option bytes) (rounds : list tick) : bool :=
  match rounds with
  | [] => true
  | t :: rounds =>
      negb (session_ends input t) && goes_on (input_after input t) rounds
  end.

(** What a round that goes on offers to the socket, if it writes: all of
    the input left. *)
Definition offer (input : option bytes) (t : tick) : list bytes :=
  match sel t with
  | inr (_, true) => if left_to_send input then [default [] input] else []
  | _ => []
  end.

Fixpoint offers (input : option bytes) (rounds : list tick) : list bytes :=
  match rounds with
  | [] => []
  | t :: rounds => offer input t ++ offers (input_after input t) rounds
  end.

(** What the socket took in a round that goes on: the front of the input
    left, as long as the write reported ([stdin[:written]]). *)
Definition taken (input : option bytes) (t : tick) : bytes :=
  match sel t, _socket_write (wr t) with
  | inr (_, true), inr written =>
      if left_to_send input
      then Bytes.slice_to (default [] input) written
      else []
  | _, _ => []
  end.

Fixpoint all_taken (input : option bytes) (rounds : list tick) : bytes :=
  match rounds with
  | [] => []
  | t :: rounds => taken input t ++ all_taken (input_after input t) rounds
  end.

(** The byte strings handed to the writes among some calls, in order. *)
Definition writes (cs : list call) : list bytes :=
  flat_map (fun c => match c with SocketWrite data => [data] | _ => [] end) cs.

(** The surroundings [env] with another answer to the building of the
    client. *)
Definition with_client (answer : exn + unit) (env : setup) : setup :=
  {| default_retry_read := default_retry_read env; client := answer;
     attach_socket := attach_socket env; start := start env;
     start_time := start_time env |}.

(** ** Limit values

    A field of a limit set holds a number or nothing
    ([seconds|none], [KB|none]). *)
Definition limit_value (v : value) : Prop :=
  v = VNone \/ exists n, v = VInt n.

(** What the constructor of [Ulimit] refuses as [soft] or [hard]: an
    object that is truthy and not an integer. *)
Definition refused (v : value) : Prop :=
  truthy v = true /\ is_int v = false.

(** ** Sample data

    A configuration in the style of the package's, with the default limit
    set stored as object 1, and some scripts of answers. *)

Definition sample_defaults : dict :=
  {[ "cputime" := VInt 1; "realtime" := VInt 5; "memory" := VInt 64;
     "processes" := VInt (-1) ]}.

Definition sample_config : config :=
  {| DEFAULT_LIMITS := 1%positive;
     CPU_TO_REAL_TIME_FACTOR := 5;
     DOCKER_URL := "unix:///var/run/docker.sock";
     DOCKER_TIMEOUT := 30;
     DOCKER_MAX_TOTAL_RETRIES := 9;
     DOCKER_MAX_CONNECT_RETRIES := 5;
     DOCKER_BACKOFF_FACTOR := QArith_base.Qmake 1 5 |}.

(** A store with the defaults and one dictionary of a caller. *)
Definition sample_store (limits : dict) : store :=
  {[ 1%positive := sample_defaults; 2%positive := limits ]}.

Definition sample_result : dict :=
  {[ "exit_code" := VInt 0;
     "stdout" := VBytes (replicate 103 "a"%byte);
     "stderr" := VBytes ["o"; "k"]%byte;
     "timeout" := VBool false ]}.

Definition sample_setup : setup :=
  {| default_retry_read := 5; client := inr tt; attach_socket := inr tt;
     start := inr tt; start_time := 0 |}.

(** One frame of output arrives while the input is written, then the end
    of file; the last round is never reached. *)
Definition sample_session : list tick :=
  [ {| now := 1; sel := inr (true, true);
       rd := inr (Some ["001"; "000"; "000"; "000"; "000"; "000"; "000";
                        "002"; "h"; "i"]%byte);
       wr := inr 2 |};
    {| now := 2; sel := inr (true, false); rd := inr None; wr := inr 0 |};
    {| now := 12; sel := inr (false, false); rd := inr None; wr := inr 0 |} ].

(** Nothing happens until the deadline is found reached. *)
Definition sample_silence : list tick :=
  [ {| now := 1; sel := inr (false, false); rd := inr None; wr := inr 0 |};
    {| now := 10; sel := inr (true, false); rd := inr None; wr := inr 0 |} ].

(** ** Further notions used in the statements *)

(** A frame of any stream whose length fits the 32-bit field. *)
Definition encodable (f : Wire.frame) : Prop :=
  (N.of_nat (length (Wire.payload f)) < 2 ^ 32)%N.

(** What a round adds to the buffer: the bytes of a ready read that
    answers with data. *)
Definition chunk_of (t : tick) : bytes :=
  match sel t with
  | inr (true, _) =>
      match _socket_read (rd t) with
      | inr (Some data) => data
      | _ => []
      end
  | _ => []
  end.

(** The state of the write half of the socket after a sequence of calls:
    [Some false] while it is open, [Some true] once it was shut down, and
    [None] if it was shut down twice or written to after the shutdown. *)
Definition half_step (half : option bool) (c : call) : option bool :=
  match half, c with
  | Some false, ShutdownWrite => Some true
  | Some true, ShutdownWrite => None
  | Some true, SocketWrite _ => None
  | _, _ => half
  end.

Definition write_half (cs : list call) : option bool :=
  fold_left half_step cs (Some false).

(** The number of shutdowns of the write half among some calls. *)
Definition shutdowns (cs : list call) : nat :=
  length (filter (fun c => c = ShutdownWrite) cs).

(** The write half is shut down in the state exactly when no input is
    left in it. *)
Definition half_closed_when_drained (st : pump) : Prop :=
  write_half (calls st) = Some (negb (has_input st)).

(** The same frames as in [sample_session], cut in the middle of the
    header and in the middle of the payload. *)
Definition sample_split_session : list tick :=
  [ {| now := 1; sel := inr (true, false);
       rd := inr (Some ["001"; "000"; "000"]%byte); wr := inr 0 |};
    {| now := 2; sel := inr (false, false); rd := inr None; wr := inr 0 |};
    {| now := 3; sel := inr (true, false);
       rd := inr (Some ["000"; "000"; "000"; "000"; "002"; "h"]%byte);
       wr := inr 0 |};
    {| now := 4; sel := inr (true, false);
       rd := inr (Some ["i"]%byte); wr := inr 0 |};
    {| now := 5; sel := inr (true, false); rd := inr None; wr := inr 0 |} ].

(** [filter_filenames]: the names of the files that have one, in the order
    of the files. *)
Definition filter_filenames (files : list dict) : list value :=
  flat_map (fun file =>
              match file !! "name" with
              | Some name => [name]
              | None => []
              end) files.

(** The longest an output can be after truncation. *)
Definition truncated_length : Z :=
  MAX_OUTPUT_LENGTH + Bytes.len truncation_marker.

(** What can be done with a cache that starts empty: the states reached by
    calls of [get_docker_client]. *)
Definition reached (cfg : config) (st : Client.clients) : Prop :=
  exists requests, st = Client.serve_all cfg Client.no_clients requests.

(** Every cached client is alive, carries the retry settings of its key,
    and is cached under that key only. *)
Definition cache_sound (st : Client.clients) : Prop :=
  forall key client,
    Client._DOCKER_CLIENTS st !! key = Some client ->
    (exists object retries,
        Client.objects st !! client = Some object
        /\ Client.http_adapter object = Some retries
        /\ Client.read retries = key.1
        /\ Client.status_forcelist retries = key.2)
    /\ forall key', Client._DOCKER_CLIENTS st !! key' = Some client -> key' = key.

(** * Properties of the codec *)

Section Slices.

Implicit Types data pre : bytes.

Lemma len_nonneg data : 0 <= Bytes.len data.
Proof. unfold Bytes.len. lia. Qed.

Lemma len_app pre data : Bytes.len (pre ++ data) = Bytes.len pre + Bytes.len data.
Proof. unfold Bytes.len. rewrite length_app. lia. Qed.

(** For bounds that are not negative a slice is a [take] of a [drop]. *)
Lemma slice_nonneg data lo hi :
  0 <= lo -> 0 <= hi ->
  Bytes.slice data lo hi = take (Z.to_nat (hi - lo)) (drop (Z.to_nat lo) data).
Proof.
  intros Hlo Hhi. unfold Bytes.slice, Bytes.clamp, Bytes.len.
  destruct (Z.ltb_spec lo 0); [lia|]. destruct (Z.ltb_spec hi 0); [lia|].
  destruct (Z.le_gt_cases lo (Z.of_nat (length data))) as [Hin|Hout].
  - rewrite (Z.min_l lo) by lia.
    destruct (Z.le_gt_cases hi (Z.of_nat (length data))).
    + rewrite Z.min_l by lia. reflexivity.
    + rewrite Z.min_r by lia.
      rewrite !take_ge; [reflexivity| |]; rewrite length_drop; lia.
  - rewrite (Z.min_r lo) by lia.
    rewrite !drop_ge by lia. now rewrite !take_nil.
Qed.

Lemma slice_shift pre data lo hi :
  0 <= lo -> 0 <= hi ->
  Bytes.slice (pre ++ data) (Bytes.len pre + lo) (Bytes.len pre + hi)
  = Bytes.slice data lo hi.
Proof.
  intros Hlo Hhi. pose proof (len_nonneg pre).
  rewrite !slice_nonneg by lia. unfold Bytes.len.
  replace (Z.to_nat (Z.of_nat (length pre) + lo))
    with (length pre + Z.to_nat lo)%nat by lia.
  rewrite drop_app_add'  by reflexivity. f_equal. lia.
Qed.

End Slices.

Section Walker.

Implicit Types data pre : bytes.
Implicit Types out err : list bytes.

(** One round of the loop, as a plain equation. *)
Lemma demux_loop_step data walker out err :
  demux_loop data walker out err =
  if Bytes.len data - walker <? 8 then inr (out, err)
  else
    match Bytes.unpack_BxxxL (Bytes.slice data walker (walker + 8)) with
    | inl e => inl e
    | inr (stream_type, length) =>
        let start := walker + 8 in
        let end_ := start + Z.of_N length in
        if (stream_type =? 1)%N then
          demux_loop data end_ (out ++ [Bytes.slice data start end_]) err
        else if (stream_type =? 2)%N then
          demux_loop data end_ out (err ++ [Bytes.slice data start end_])
        else demux_loop data end_ out err
    end.
Proof.
  rewrite demux_loop_equation_1.
  destruct (Z_ge_dec (Bytes.len data - walker) 8) as [Hge|Hlt];
    destruct (Z.ltb_spec (Bytes.len data - walker) 8); try lia;
    simpl; [|reflexivity].
  change STREAM_HEADER_SIZE_BYTES with 8.
  destruct (Bytes.unpack_BxxxL _) as [e|[stream_type length]]; reflexivity.
Qed.

(** A header read inside the data always unpacks. *)
Lemma unpack_header data walker :
  0 <= walker -> 8 <= Bytes.len data - walker ->
  exists stream_type length,
    Bytes.unpack_BxxxL (Bytes.slice data walker (walker + 8))
    = inr (stream_type, length).
Proof.
  intros Hw Hlen. rewrite slice_nonneg by lia.
  replace (walker + 8 - walker) with 8 by lia.
  assert (Hd : (8 <= length (drop (Z.to_nat walker) data))%nat).
  { rewrite length_drop. unfold Bytes.len in Hlen. lia. }
  destruct (drop (Z.to_nat walker) data)
    as [|b0 [|b1 [|b2 [|b3 [|b4 [|b5 [|b6 [|b7 tl]]]]]]]];
    simpl in Hd; try lia.
  eexists _, _. reflexivity.
Qed.

(** Induction on the number of bytes left to the walker. *)
Lemma walker_ind data (P : Z -> Prop) :
  (forall walker, Bytes.len data - walker < 8 -> P walker) ->
  (forall walker,
      8 <= Bytes.len data - walker ->
      (forall walker', walker < walker' -> P walker') -> P walker) ->
  forall walker, P walker.
Proof.
  intros Hstop Hstep walker.
  remember (Z.to_nat (Bytes.len data - walker)) as left_ eqn:Hleft.
  revert walker Hleft.
  induction left_ as [left_ IH] using lt_wf_ind. intros walker Hleft.
  destruct (Z.lt_ge_cases (Bytes.len data - walker) 8) as [Hlt|Hge].
  - now apply Hstop.
  - apply Hstep; [lia|]. intros walker' Hw.
    apply (IH (Z.to_nat (Bytes.len data - walker'))); lia.
Qed.

(** The loop never raises: started inside the data, every header it
    reads is whole. *)
Lemma demux_loop_total data walker out err :
  0 <= walker ->
  exists out' err', demux_loop data walker out err = inr (out', err').
Proof.
  revert out err. pattern walker. apply (walker_ind data); clear walker.
  - intros walker Hlt out err _. rewrite demux_loop_step.
    destruct (Z.ltb_spec (Bytes.len data - walker) 8); [|lia]. eauto.
  - intros walker Hge IH out err Hw. rewrite demux_loop_step.
    destruct (Z.ltb_spec (Bytes.len data - walker) 8); [lia|].
    destruct (unpack_header data walker) as (ty & n & ->); [lia..|].
    cbv zeta. repeat case_match; apply IH; lia.
Qed.

(** The chunks collected so far are only ever extended. *)
Lemma demux_loop_acc data walker out err :
  demux_loop data walker out err =
  match demux_loop data walker [] [] with
  | inl e => inl e
  | inr (out', err') => inr (out ++ out', err ++ err')
  end.
Proof.
  revert out err. pattern walker. apply (walker_ind data); clear walker.
  - intros walker Hlt out err. rewrite !(demux_loop_step data walker).
    destruct (Z.ltb_spec (Bytes.len data - walker) 8); [|lia].
    now rewrite !app_nil_r.
  - intros walker Hge IH out err. rewrite !(demux_loop_step data walker).
    destruct (Z.ltb_spec (Bytes.len data - walker) 8); [lia|].
    destruct (Bytes.unpack_BxxxL _) as [e|[ty n]]; [reflexivity|].
    cbv zeta.
    assert (Hnext : walker < walker + 8 + Z.of_N n) by lia.
    set (chunk := Bytes.slice data _ _).
    destruct (ty =? 1)%N; [|destruct (ty =? 2)%N].
    + rewrite (IH _ Hnext (out ++ [chunk]) err), (IH _ Hnext ([] ++ [chunk]) []).
      destruct (demux_loop data _ [] []) as [e|[out' err']]; [reflexivity|].
      now rewrite <- !app_assoc.
    + rewrite (IH _ Hnext out (err ++ [chunk])), (IH _ Hnext [] ([] ++ [chunk])).
      destruct (demux_loop data _ [] []) as [e|[out' err']]; [reflexivity|].
      now rewrite <- !app_assoc.
    + apply IH, Hnext.
Qed.

(** Bytes before the walker do not matter. *)
Lemma demux_loop_shift pre data walker out err :
  0 <= walker ->
  demux_loop (pre ++ data) (Bytes.len pre + walker) out err
  = demux_loop data walker out err.
Proof.
  revert out err. pattern walker. apply (walker_ind data); clear walker.
  - intros walker Hlt out err Hw. rewrite !demux_loop_step, len_app.
    replace (Bytes.len pre + Bytes.len data - (Bytes.len pre + walker))
      with (Bytes.len data - walker) by lia.
    destruct (Z.ltb_spec (Bytes.len data - walker) 8); [|lia]. reflexivity.
  - intros walker Hge IH out err Hw.
    rewrite (demux_loop_step (pre ++ data)), (demux_loop_step data), len_app.
    replace (Bytes.len pre + Bytes.len data - (Bytes.len pre + walker))
      with (Bytes.len data - walker) by lia.
    destruct (Z.ltb_spec (Bytes.len data - walker) 8); [lia|].
    rewrite <- Z.add_assoc, slice_shift by lia.
    destruct (Bytes.unpack_BxxxL _) as [e|[ty n]]; [reflexivity|].
    cbv zeta.
    replace (Bytes.len pre + (walker + 8) + Z.of_N n)
      with (Bytes.len pre + (walker + 8 + Z.of_N n)) by lia.
    rewrite slice_shift by lia.
    repeat case_match; apply IH; lia.
Qed.

(** The loop started at [walker] is the loop started afresh on the bytes
    from [walker] on. *)
Lemma demux_loop_drop data walker out err :
  0 <= walker ->
  demux_loop data walker out err
  = demux_loop (drop (Z.to_nat walker) data) 0 out err.
Proof.
  intros Hw. destruct (Z.le_gt_cases walker (Bytes.len data)) as [Hin|Hout].
  - assert (Hpre : walker = Bytes.len (take (Z.to_nat walker) data) + 0).
    { unfold Bytes.len in *. rewrite length_take. lia. }
    pose proof (demux_loop_shift (take (Z.to_nat walker) data)
                  (drop (Z.to_nat walker) data) 0 out err) as Hshift.
    rewrite take_drop, <- Hpre in Hshift. apply Hshift. lia.
  - rewrite !demux_loop_step. rewrite drop_ge by (unfold Bytes.len in *; lia).
    destruct (Z.ltb_spec (Bytes.len data - walker) 8); [|lia].
    reflexivity.
Qed.

End Walker.

Section Frames.

Implicit Types rest data : bytes.

(** Decoding one frame at the head of the data: its payload is what the
    data holds of the declared length, and decoding goes on behind it. *)
Lemma demultiplex_frame b0 r1 r2 r3 b4 b5 b6 b7 rest :
  let n := N.to_nat (Bytes.be32 b4 b5 b6 b7) in
  demultiplex_docker_stream
    (b0 :: r1 :: r2 :: r3 :: b4 :: b5 :: b6 :: b7 :: rest)
  = match demultiplex_docker_stream (drop n rest) with
    | inl e => inl e
    | inr (out, err) =>
        inr (if (Bytes.byte_val b0 =? 1)%N then take n rest ++ out else out,
             if (Bytes.byte_val b0 =? 2)%N then take n rest ++ err else err)
    end.
Proof.
  intros n. unfold demultiplex_docker_stream.
  rewrite demux_loop_step.
  set (data := b0 :: r1 :: r2 :: r3 :: b4 :: b5 :: b6 :: b7 :: rest).
  assert (Hlen : Bytes.len data = 8 + Bytes.len rest).
  { unfold Bytes.len, data. cbn [length]. lia. }
  pose proof (len_nonneg rest).
  destruct (Z.ltb_spec (Bytes.len data - 0) 8); [lia|].
  rewrite slice_nonneg by lia.
  change (take _ (drop _ data))
    with (take 8 (b0 :: r1 :: r2 :: r3 :: b4 :: b5 :: b6 :: b7 :: rest)).
  cbn [take Bytes.unpack_BxxxL]. cbv zeta.
  set (end_ := 0 + 8 + Z.of_N (Bytes.be32 b4 b5 b6 b7)).
  assert (Hpayload : Bytes.slice data (0 + 8) end_ = take n rest).
  { rewrite slice_nonneg by lia. unfold end_, n, data.
    replace (Z.to_nat _) with (N.to_nat (Bytes.be32 b4 b5 b6 b7)) by lia.
    reflexivity. }
  assert (Hrest : drop (Z.to_nat end_) data = drop n rest).
  { unfold end_, n, data.
    replace (Z.to_nat _) with (8 + N.to_nat (Bytes.be32 b4 b5 b6 b7))%nat by lia.
    reflexivity. }
  rewrite Hpayload.
  destruct (Bytes.byte_val b0 =? 1)%N eqn:E1;
    [|destruct (Bytes.byte_val b0 =? 2)%N eqn:E2].
  - apply N.eqb_eq in E1. rewrite E1. cbn [N.eqb Pos.eqb].
    rewrite demux_loop_acc, demux_loop_drop, Hrest by lia.
    destruct (demux_loop (drop n rest) 0 [] []) as [e|[out err]]; [reflexivity|].
    reflexivity.
  - rewrite demux_loop_acc, demux_loop_drop, Hrest by lia.
    destruct (demux_loop (drop n rest) 0 [] []) as [e|[out err]]; [reflexivity|].
    cbn [app concat]. reflexivity.
  - rewrite demux_loop_drop, Hrest by lia.
    destruct (demux_loop (drop n rest) 0 [] []) as [e|[out err]]; reflexivity.
Qed.

Lemma demultiplex_short data :
  (length data < 8)%nat -> demultiplex_docker_stream data = inr ([], []).
Proof.
  intros Hshort. unfold demultiplex_docker_stream. rewrite demux_loop_step.
  destruct (Z.ltb_spec (Bytes.len data - 0) 8) as [_|Hge]; [reflexivity|].
  unfold Bytes.len in Hge. lia.
Qed.

Lemma demultiplex_returns data :
  exists out err, demultiplex_docker_stream data = inr (out, err).
Proof.
  unfold demultiplex_docker_stream.
  destruct (demux_loop_total data 0 [] []) as (out & err & ->); [lia|].
  eauto.
Qed.

End Frames.

(** Arithmetic with the powers of two of the header fields. *)
Ltac pow2_lia :=
  change (2 ^ 32)%N with 4294967296%N in *;
  change (2 ^ 24)%N with 16777216%N in *;
  change (2 ^ 16)%N with 65536%N in *;
  change (2 ^ 8)%N with 256%N in *;
  zify; Z.to_euclidean_division_equations; lia.

Section WireFormat.

Lemma byte_val_byte_of n : Bytes.byte_val (Wire.byte_of n) = (n mod 256)%N.
Proof.
  unfold Bytes.byte_val, Wire.byte_of.
  pose proof (Byte.to_of_N_option_map (n mod 256)) as H.
  assert (Hlt : (n mod 256 < 256)%N) by now apply N.mod_lt.
  destruct (N.leb_spec (n mod 256) 255); [|lia].
  destruct (Byte.of_N (n mod 256)); simpl in *; congruence.
Qed.

(** Below its shift a field does not overlap the bits above it. *)
Lemma lor_shiftl_add a b k :
  (b < 2 ^ k)%N -> N.lor (N.shiftl a k) b = (a * 2 ^ k + b)%N.
Proof.
  intros Hb. rewrite N.shiftl_mul_pow2.
  assert (Hdisj : N.land (a * 2 ^ k) b = 0%N).
  { apply N.bits_inj. intros i. rewrite N.land_spec, N.bits_0.
    destruct (N.lt_ge_cases i k) as [Hlow|Hhigh].
    - now rewrite N.mul_pow2_bits_low.
    - rewrite <- (N.mod_small b (2 ^ k)) by assumption.
      rewrite N.mod_pow2_bits_high by assumption. apply andb_false_r. }
  now rewrite <- N.lxor_lor, <- N.add_nocarry_lxor.
Qed.

Lemma be32_be32_bytes n :
  (n < 2 ^ 32)%N ->
  Bytes.be32 (Wire.byte_of (n / 2 ^ 24)) (Wire.byte_of (n / 2 ^ 16))
    (Wire.byte_of (n / 2 ^ 8)) (Wire.byte_of n) = n.
Proof.
  intros Hn. unfold Bytes.be32. rewrite !byte_val_byte_of.
  rewrite (lor_shiftl_add _ _ 8) by pow2_lia.
  rewrite (lor_shiftl_add _ _ 16) by pow2_lia.
  rewrite (lor_shiftl_add _ _ 24) by pow2_lia.
  pow2_lia.
Qed.

End WireFormat.

(** C5. [demultiplex_docker_stream] returns on every byte string and never
    raises; fewer than 8 bytes are no frame at all; a frame at the head of
    the data gives its payload to stdout when its first byte is 1, to
    stderr when it is 2 and to neither otherwise, the payload being the
    bytes that follow the header, as many as declared or as many as there
    are, and decoding goes on behind the payload. *)
Theorem demultiplex_total_framewise :
  (forall data : bytes,
      exists out err, demultiplex_docker_stream data = inr (out, err))
  /\ (forall data : bytes,
         (length data < 8)%nat -> demultiplex_docker_stream data = inr ([], []))
  /\ (forall (b0 r1 r2 r3 b4 b5 b6 b7 : byte) (rest : bytes),
         let n := N.to_nat (Bytes.be32 b4 b5 b6 b7) in
         let payload := take n rest in
         exists out err,
           demultiplex_docker_stream (drop n rest) = inr (out, err)
           /\ demultiplex_docker_stream
                (b0 :: r1 :: r2 :: r3 :: b4 :: b5 :: b6 :: b7 :: rest)
              = inr (if (Bytes.byte_val b0 =? 1)%N then payload ++ out else out,
                     if (Bytes.byte_val b0 =? 2)%N then payload ++ err else err))
  /\ (forall (b0 r1 r2 r3 b4 b5 b6 b7 : byte) (rest : bytes),
         (length rest <= N.to_nat (Bytes.be32 b4 b5 b6 b7))%nat ->
         demultiplex_docker_stream
           (b0 :: r1 :: r2 :: r3 :: b4 :: b5 :: b6 :: b7 :: rest)
         = inr (if (Bytes.byte_val b0 =? 1)%N then rest else [],
                if (Bytes.byte_val b0 =? 2)%N then rest else [])).
Proof.
  split; [exact demultiplex_returns|].
  split; [exact demultiplex_short|].
  split.
  - intros b0 r1 r2 r3 b4 b5 b6 b7 rest n payload.
    destruct (demultiplex_returns (drop n rest)) as (out & err & Hrest).
    exists out, err. split; [exact Hrest|].
    rewrite demultiplex_frame. fold n. now rewrite Hrest.
  - intros b0 r1 r2 r3 b4 b5 b6 b7 rest Hover.
    rewrite demultiplex_frame.
    rewrite drop_ge, take_ge by lia.
    rewrite demultiplex_short by (simpl; lia).
    now rewrite !app_nil_r.
Qed.

Lemma demultiplex_total_framewise_witness :
  demultiplex_docker_stream
    ["001"; "000"; "000"; "000"; "000"; "000"; "000"; "009"; "A"; "B"]%byte
  = inr (["A"; "B"]%byte, [])
  /\ demultiplex_docker_stream ["002"; "000"; "000"]%byte = inr ([], []).
Proof.
  destruct demultiplex_total_framewise as (_ & Hshort & _ & Hover).
  split.
  - apply (Hover "001" "000" "000" "000" "000" "000" "000" "009"
             ["A"; "B"])%byte.
    vm_compute. lia.
  - apply Hshort. simpl. lia.
Defined.

(** C1. Decoding the concatenation of encoded frames of the streams 1 and 2
    gives back the stdout payloads and the stderr payloads, each in the
    order of the frames. *)
Theorem demultiplex_concat_frames (frames : list Wire.frame) :
  Forall Wire.valid frames ->
  demultiplex_docker_stream (concat (map Wire.encode frames))
  = inr (Wire.payloads_of 1 frames, Wire.payloads_of 2 frames).
Proof.
  induction 1 as [|f frames [Hsel Hlen] _ IH].
  - reflexivity.
  - destruct f as [b0 [[r1 r2] r3] payload]. cbn in Hsel, Hlen.
    cbn [map concat Wire.encode Wire.selector Wire.reserved Wire.payload
         Wire.be32_bytes app].
    rewrite demultiplex_frame, be32_be32_bytes by exact Hlen.
    rewrite Nat2N.id, take_app_length, drop_app_length, IH.
    unfold Wire.payloads_of. rewrite !filter_cons. cbn [Wire.selector].
    destruct Hsel as [-> | ->]; reflexivity.
Qed.

Lemma demultiplex_concat_frames_witness :
  let frames :=
    [ {| Wire.selector := "001"; Wire.reserved := ("000", "000", "000");
         Wire.payload := ["A"; "B"] |};
      {| Wire.selector := "002"; Wire.reserved := ("000", "000", "000");
         Wire.payload := ["C"] |};
      {| Wire.selector := "001"; Wire.reserved := ("000", "000", "000");
         Wire.payload := ["D"] |} ]%byte in
  Forall Wire.valid frames
  /\ demultiplex_docker_stream (concat (map Wire.encode frames))
     = inr (["A"; "B"; "D"]%byte, ["C"]%byte).
Proof.
  intros frames.
  assert (Hvalid : Forall Wire.valid frames).
  { repeat constructor; cbn; lia. }
  split; [exact Hvalid|].
  exact (demultiplex_concat_frames frames Hvalid).
Defined.

(** * Properties of the limit translator *)

Section StoreRuns.

Implicit Types (h : store) (d : dict) (l : loc).

Lemma bind_run {A B} (m : Py A) (f : A -> Py B) h :
  (m ≫= f) h =
  match m h with
  | (inl e, h') => (inl e, h')
  | (inr x, h') => f x h'
  end.
Proof. reflexivity. Qed.

Lemma get_run l d h : h !! l = Some d -> Dict.get l h = (inr d, h).
Proof. intros Hl. unfold Dict.get. now rewrite Hl. Qed.

Lemma setitem_run l d key v h :
  h !! l = Some d ->
  Dict.setitem l key v h = (inr tt, <[l := <[key := v]> d]> h).
Proof.
  intros Hl. unfold Dict.setitem. rewrite bind_run, (get_run l d) by done.
  reflexivity.
Qed.

Lemma contains_spec d key : Dict.contains d key = true <-> is_Some (d !! key).
Proof. unfold Dict.contains. apply bool_decide_eq_true. Qed.

Lemma fill_default_run l d key v h :
  h !! l = Some d ->
  fill_default l key v h =
  (inr tt, if Dict.contains d key then h else <[l := <[key := v]> d]> h).
Proof.
  intros Hl. unfold fill_default. rewrite bind_run, (get_run l d) by done.
  destruct (Dict.contains d key); [reflexivity|]. now apply setitem_run.
Qed.

(** The [for] loop leaves in the object every field it had and adds the
    defaults of the others. *)
Lemma fill_defaults_run l (defaults : dict) :
  forall d h, h !! l = Some d ->
    map_fold (fun limit_name default_value (done_ : Py unit) =>
                done_ ;; fill_default l limit_name default_value)
             (mret tt) defaults h
    = (inr tt, <[l := d ∪ defaults]> h).
Proof.
  apply (map_fold_weak_ind (fun (run : Py unit) (m : dict) =>
    forall d h, h !! l = Some d -> run h = (inr tt, <[l := d ∪ m]> h))).
  - intros d h Hl. rewrite (right_id_L ∅ (∪)), insert_id by done. reflexivity.
  - intros key v m run Hfresh IH d h Hl.
    rewrite bind_run, (IH d h Hl).
    rewrite (fill_default_run l (d ∪ m)) by apply lookup_insert_eq.
    f_equal. destruct (Dict.contains (d ∪ m) key) eqn:Hin.
    + apply contains_spec in Hin. destruct Hin as [v' Hv'].
      apply lookup_union_Some_raw in Hv' as [Hd|[_ Hm]]; [|congruence].
      f_equal. apply map_eq. intros k. rewrite !lookup_union.
      destruct (decide (k = key)) as [->|Hne].
      * now rewrite Hd, lookup_insert_eq, Hfresh.
      * now rewrite lookup_insert_ne.
    + rewrite insert_insert_eq. f_equal.
      apply insert_union_r.
      destruct (d !! key) eqn:Hd; [|reflexivity].
      assert (Dict.contains (d ∪ m) key = true); [|congruence].
      apply contains_spec. exists v0. now apply lookup_union_Some_l.
Qed.

End StoreRuns.

Section Merge.

Variable cfg : config.
Implicit Types (h : store) (d D : dict) (l : loc).

Lemma merge_run_falsy h limits :
  (forall l, limits = Some l -> is_Some (h !! l)) ->
  supplied h limits = ∅ ->
  merge_limits_defaults cfg limits h = (inr (DEFAULT_LIMITS cfg), h).
Proof.
  intros Hlive Hempty. destruct limits as [l|]; [|reflexivity].
  destruct (Hlive l eq_refl) as [d Hd]. simpl in Hempty.
  rewrite Hd in Hempty. simpl in Hempty. subst d.
  unfold merge_limits_defaults. rewrite bind_run, (get_run l ∅) by done.
  now rewrite bool_decide_eq_true_2.
Qed.

Lemma merge_run_some h l d D :
  h !! l = Some d -> d ≠ ∅ -> h !! DEFAULT_LIMITS cfg = Some D ->
  merge_limits_defaults cfg (Some l) h =
  let m := d ∪ D in
  if Dict.contains d "realtime" then (inr l, <[l := m]> h)
  else
    match Dict.getitem m "cputime"
          ≫= (fun c => py_mul_int c (CPU_TO_REAL_TIME_FACTOR cfg)) with
    | inl e => (inl e, <[l := m]> h)
    | inr realtime => (inr l, <[l := <["realtime" := realtime]> m]> h)
    end.
Proof.
  intros Hl Hne HD. unfold merge_limits_defaults.
  rewrite bind_run, (get_run l d) by done.
  rewrite bool_decide_eq_false_2 by done.
  rewrite bind_run, (get_run _ D) by done.
  rewrite bind_run, (fill_defaults_run l D d h Hl).
  cbv zeta. destruct (Dict.contains d "realtime"); [reflexivity|].
  rewrite bind_run. cbn [negb].
  rewrite bind_run, (get_run l (d ∪ D)) by apply lookup_insert_eq.
  rewrite bind_run. unfold lift at 1.
  destruct (Dict.getitem (d ∪ D) "cputime") as [e|c]; [reflexivity|].
  rewrite bind_run. unfold lift at 1. cbn [mbind exn_bind].
  destruct (py_mul_int c _) as [e|realtime]; [reflexivity|].
  rewrite (setitem_run l (d ∪ D)) by apply lookup_insert_eq.
  now rewrite insert_insert_eq.
Qed.

End Merge.

(** C3, as stated, fails: merging a caller's [{cputime: 10}] rewrites the
    caller's own dictionary and returns it. *)
Lemma merge_limits_defaults_not_fresh :
  ~ merges_into_fresh sample_config (Some 2%positive)
      (sample_store {[ "cputime" := VInt 10 ]}).
Proof.
  intros Hfresh.
  destruct (Hfresh 2%positive
              (sample_store {[ "cputime" := VInt 10; "realtime" := VInt 50;
                               "memory" := VInt 64;
                               "processes" := VInt (-1) ]}))
    as [_ Hnew].
  - vm_compute. reflexivity.
  - vm_compute in Hnew. discriminate.
Qed.

(** C3, amended. The merge works in place and never builds a structure.
    No object other than the caller's dictionary changes, whether the call
    returns or raises, and what it returns is an object that was there
    before the call. For an absent or empty limit set the result is the
    defaults object itself and no object changes. For any other limit set
    the caller's dictionary receives the defaults of the fields it lacks.
    Then, if the caller supplied [realtime], the dictionary is returned as
    it stands. If not, [realtime = cputime * K] is written into it and it
    is returned, unless the merged set has no [cputime] or a [cputime] of
    [None]: then the call raises [KeyError] or [TypeError] and leaves the
    dictionary with the defaults filled in. The shared defaults keep their
    content, also when they are passed in themselves, provided they hold
    [realtime]. *)
Theorem merge_limits_defaults_in_place (cfg : config) (h : store)
    (limits : option loc) (D : dict) :
  (forall l, limits = Some l -> is_Some (h !! l)) ->
  h !! DEFAULT_LIMITS cfg = Some D ->
  exists r h',
    merge_limits_defaults cfg limits h = (r, h')
    /\ (forall l, limits <> Some l -> h' !! l = h !! l)
    /\ (forall l, r = inr l -> is_Some (h !! l))
    /\ (is_Some (D !! "realtime") -> h' !! DEFAULT_LIMITS cfg = Some D)
    /\ (supplied h limits = ∅ -> r = inr (DEFAULT_LIMITS cfg) /\ h' = h)
    /\ (supplied h limits <> ∅ ->
        exists l,
          limits = Some l
          /\ let merged := supplied h limits ∪ D in
             match supplied h limits !! "realtime", merged !! "cputime" with
             | Some _, _ => r = inr l /\ h' !! l = Some merged
             | None, None =>
                 r = inl (KeyError "cputime") /\ h' !! l = Some merged
             | None, Some VNone =>
                 r = inl TypeError /\ h' !! l = Some merged
             | None, Some (VInt c) =>
                 r = inr l
                 /\ h' !! l
                    = Some (<["realtime" :=
                                VInt (c * CPU_TO_REAL_TIME_FACTOR cfg)]> merged)
             | None, Some cputime =>
                 exists realtime,
                   py_mul_int cputime (CPU_TO_REAL_TIME_FACTOR cfg)
                   = inr realtime
                   /\ r = inr l
                   /\ h' !! l = Some (<["realtime" := realtime]> merged)
             end).
Proof.
  intros Hlive HD.
  destruct (decide (supplied h limits = ∅)) as [Hempty|Hfull].
  - exists (inr (DEFAULT_LIMITS cfg)), h.
    rewrite merge_run_falsy by assumption. repeat split; try done.
    intros l [= <-]. eauto.
  - destruct limits as [l|]; [|done].
    destruct (Hlive l eq_refl) as [d Hd].
    assert (Hsup : supplied h (Some l) = d) by (simpl; now rewrite Hd).
    rewrite Hsup in Hfull |- *. clear Hsup.
    rewrite (merge_run_some cfg h l d D) by assumption. cbv zeta.
    assert (Hother : forall (m : dict) l',
               Some l <> Some l' -> <[l := m]> h !! l' = h !! l').
    { intros m l' Hne. apply lookup_insert_ne. congruence. }
    assert (Hdef : forall m : dict,
               is_Some (D !! "realtime") ->
               (Dict.contains d "realtime" = true -> m = d ∪ D) ->
               <[l := m]> h !! DEFAULT_LIMITS cfg = Some D).
    { intros m HDr Hm. destruct (decide (l = DEFAULT_LIMITS cfg)) as [->|Hne].
      - rewrite HD in Hd. injection Hd as Hd. subst d.
        rewrite lookup_insert_eq, Hm by now apply contains_spec.
        now rewrite (idemp_L (∪)).
      - now rewrite lookup_insert_ne. }
    assert (Hold : forall l', inr l = (inr l' : exn + loc) -> is_Some (h !! l')).
    { intros l' [= <-]. eauto. }
    destruct (Dict.contains d "realtime") eqn:Hrt.
    + apply contains_spec in Hrt as Hrt'. destruct Hrt' as [v Hv].
      eexists _, _. split; [reflexivity|].
      split; [intros; now apply Hother|]. split; [exact Hold|].
      split; [intros; now apply Hdef|].
      split; [done|]. intros _. exists l. split; [reflexivity|].
      rewrite Hv, lookup_insert_eq. done.
    + assert (Hnone : d !! "realtime" = None).
      { destruct (d !! "realtime") eqn:E; [|reflexivity].
        assert (Dict.contains d "realtime" = true); [|congruence].
        apply contains_spec. eauto. }
      rewrite Hnone. unfold Dict.getitem.
      destruct ((d ∪ D) !! "cputime") as [[|b|c|s|bs]|];
        cbn [mbind exn_bind py_mul_int raise];
        (eexists _, _; split; [reflexivity|];
         split; [intros; now apply Hother|];
         split; [first [exact Hold | intros ? [=]]|];
         split; [intros; now apply Hdef|];
         split; [done|]; intros _; exists l; split; [reflexivity|];
         rewrite lookup_insert_eq; eauto).
Qed.

Lemma merge_limits_defaults_in_place_witness :
  let h := sample_store {[ "cputime" := VInt 10 ]} in
  (exists h',
      merge_limits_defaults sample_config (Some 2%positive) h
      = (inr 2%positive, h')
      /\ h' !! 1%positive = Some sample_defaults
      /\ h' !! 2%positive
         = Some (<["realtime" := VInt (10 * 5)]>
                   ({[ "cputime" := VInt 10 ]} ∪ sample_defaults)))
  /\ (exists h',
        merge_limits_defaults sample_config (Some 2%positive)
          (sample_store {[ "memory" := VInt 8; "cputime" := VNone ]})
        = (inl TypeError, h')
        /\ h' !! 1%positive = Some sample_defaults
        /\ h' !! 2%positive
           = Some ({[ "memory" := VInt 8; "cputime" := VNone ]}
                     ∪ sample_defaults)).
Proof.
  intros h. split.
  - destruct (merge_limits_defaults_in_place sample_config h (Some 2%positive)
                sample_defaults)
      as (r & h' & Hrun & _ & _ & Hdefaults & _ & Hfull).
    + intros l [= <-]. vm_compute. eauto.
    + reflexivity.
    + destruct Hfull as (l & [= <-] & Hcase).
      { intros Hempty.
        apply (f_equal (fun m : dict => m !! "cputime")) in Hempty.
        vm_compute in Hempty. discriminate. }
      cbv zeta in Hcase.
      change (supplied h (Some 2%positive)) with ({[ "cputime" := VInt 10 ]} : dict)
        in Hcase.
      assert (Hrt : ({[ "cputime" := VInt 10 ]} : dict) !! "realtime" = None)
        by reflexivity.
      assert (Hcpu : (({[ "cputime" := VInt 10 ]} : dict) ∪ sample_defaults)
                       !! "cputime" = Some (VInt 10)) by reflexivity.
      rewrite Hrt, Hcpu in Hcase. destruct Hcase as [-> Hcaller].
      exists h'. split; [exact Hrun|]. split; [|exact Hcaller].
      apply Hdefaults. vm_compute. eauto.
  - destruct (merge_limits_defaults_in_place sample_config
                (sample_store {[ "memory" := VInt 8; "cputime" := VNone ]})
                (Some 2%positive) sample_defaults)
      as (r & h' & Hrun & _ & _ & Hdefaults & _ & Hfull).
    + intros l [= <-]. vm_compute. eauto.
    + reflexivity.
    + destruct Hfull as (l & [= <-] & Hcase).
      { intros Hempty.
        apply (f_equal (fun m : dict => m !! "cputime")) in Hempty.
        vm_compute in Hempty. discriminate. }
      cbv zeta in Hcase.
      change (supplied (sample_store {[ "memory" := VInt 8; "cputime" := VNone ]})
                (Some 2%positive))
        with ({[ "memory" := VInt 8; "cputime" := VNone ]} : dict) in Hcase.
      assert (Hrt : ({[ "memory" := VInt 8; "cputime" := VNone ]} : dict)
                      !! "realtime" = None) by reflexivity.
      assert (Hcpu : (({[ "memory" := VInt 8; "cputime" := VNone ]} : dict)
                        ∪ sample_defaults) !! "cputime" = Some VNone)
        by reflexivity.
      rewrite Hrt, Hcpu in Hcase. destruct Hcase as [-> Hcaller].
      exists h'. split; [exact Hrun|]. split; [|exact Hcaller].
      apply Hdefaults. vm_compute. eauto.
Defined.

(** C4. Whenever the merged set holds [cputime]: a [realtime] the caller
    supplied is kept as it is, and a caller who supplied none gets
    [realtime = cputime * K] for an integer [cputime]. For an absent or
    empty limit set the merged set is the default set as it stands, so
    there the rule is the one the defaults themselves obey (the hypothesis
    of the second part); a limit set that is not empty needs no assumption
    on the defaults. *)
Theorem merge_limits_defaults_realtime (cfg : config) (h : store)
    (limits : option loc) (D : dict) (cputime : value) :
  (forall l, limits = Some l -> is_Some (h !! l)) ->
  h !! DEFAULT_LIMITS cfg = Some D ->
  (supplied h limits ∪ D) !! "cputime" = Some cputime ->
  (forall realtime,
      supplied h limits !! "realtime" = Some realtime ->
      exists r h' m,
        merge_limits_defaults cfg limits h = (inr r, h')
        /\ h' !! r = Some m
        /\ m !! "cputime" = Some cputime
        /\ m !! "realtime" = Some realtime)
  /\ (forall c,
        cputime = VInt c ->
        supplied h limits !! "realtime" = None ->
        (supplied h limits = ∅ ->
         D !! "realtime" = Some (VInt (c * CPU_TO_REAL_TIME_FACTOR cfg))) ->
        exists r h' m,
          merge_limits_defaults cfg limits h = (inr r, h')
          /\ h' !! r = Some m
          /\ m !! "cputime" = Some (VInt c)
          /\ m !! "realtime" = Some (VInt (c * CPU_TO_REAL_TIME_FACTOR cfg))).
Proof.
  intros Hlive HD Hcpu.
  destruct (decide (supplied h limits = ∅)) as [Hempty|Hfull].
  - rewrite merge_run_falsy by assumption.
    rewrite Hempty, (left_id_L ∅ (∪)) in Hcpu. rewrite Hempty. split.
    + intros realtime Hrt. now rewrite lookup_empty in Hrt.
    + intros c -> _ Hdefaults. exists (DEFAULT_LIMITS cfg), h, D. auto.
  - destruct limits as [l|]; [|done].
    destruct (Hlive l eq_refl) as [d Hd].
    assert (Hsup : supplied h (Some l) = d) by (simpl; now rewrite Hd).
    rewrite Hsup in Hfull, Hcpu |- *. clear Hsup.
    rewrite (merge_run_some cfg h l d D) by assumption. cbv zeta. split.
    + intros realtime Hrt.
      assert (Dict.contains d "realtime" = true) as ->
        by (apply contains_spec; eauto).
      exists l, (<[l := d ∪ D]> h), (d ∪ D). rewrite lookup_insert_eq.
      repeat split; try done. now apply lookup_union_Some_l.
    + intros c -> Hrt _.
      assert (Dict.contains d "realtime" = false) as ->.
      { destruct (Dict.contains d "realtime") eqn:Hin; [|reflexivity].
        apply contains_spec in Hin as [v Hv]. congruence. }
      unfold Dict.getitem. rewrite Hcpu. cbn [mbind exn_bind py_mul_int].
      eexists l, _, _. rewrite lookup_insert_eq.
      split; [reflexivity|]. split; [reflexivity|].
      split; [now rewrite lookup_insert_ne|apply lookup_insert_eq].
Qed.

Lemma merge_limits_defaults_realtime_witness :
  (exists h' m,
      merge_limits_defaults sample_config (Some 2%positive)
        (sample_store {[ "cputime" := VInt 10 ]}) = (inr 2%positive, h')
      /\ h' !! 2%positive = Some m
      /\ m !! "realtime" = Some (VInt (10 * 5)))
  /\ (exists h' m,
      merge_limits_defaults sample_config (Some 2%positive)
        (sample_store {[ "cputime" := VInt 10; "realtime" := VInt 3 ]})
      = (inr 2%positive, h')
      /\ h' !! 2%positive = Some m
      /\ m !! "realtime" = Some (VInt 3))
  /\ (exists h' m,
      merge_limits_defaults sample_config None (sample_store ∅)
      = (inr 1%positive, h')
      /\ h' !! 1%positive = Some m
      /\ m !! "realtime" = Some (VInt (1 * 5))).
Proof.
  split; [|split].
  - destruct (merge_limits_defaults_realtime sample_config
                (sample_store {[ "cputime" := VInt 10 ]}) (Some 2%positive)
                sample_defaults (VInt 10)) as [_ Hderived].
    + intros l [= <-]. vm_compute. eauto.
    + reflexivity.
    + reflexivity.
    + destruct (Hderived 10) as (r & h' & m & Hrun & Hm & _ & Hrt).
      * reflexivity.
      * reflexivity.
      * vm_compute. discriminate.
      * assert (r = 2%positive) as ->.
        { vm_compute in Hrun. congruence. }
        exists h', m. repeat split; assumption.
  - destruct (merge_limits_defaults_realtime sample_config
                (sample_store {[ "cputime" := VInt 10; "realtime" := VInt 3 ]})
                (Some 2%positive) sample_defaults (VInt 10)) as [Hkept _].
    + intros l [= <-]. vm_compute. eauto.
    + reflexivity.
    + reflexivity.
    + destruct (Hkept (VInt 3)) as (r & h' & m & Hrun & Hm & _ & Hrt).
      * reflexivity.
      * assert (r = 2%positive) as ->.
        { vm_compute in Hrun. congruence. }
        exists h', m. repeat split; assumption.
  - destruct (merge_limits_defaults_realtime sample_config
                (sample_store ∅) None sample_defaults (VInt 1))
      as [_ Hderived].
    + intros l [=].
    + reflexivity.
    + reflexivity.
    + destruct (Hderived 1) as (r & h' & m & Hrun & Hm & _ & Hrt).
      * reflexivity.
      * reflexivity.
      * intros _. reflexivity.
      * assert (r = 1%positive) as ->.
        { vm_compute in Hrun. congruence. }
        exists h', m. repeat split; assumption.
Defined.

(** An explicit [cputime] of [None] without a [realtime] is outside the
    rule: the product [None * K] raises, after the defaults were filled
    into the caller's dictionary. *)
Example merge_limits_defaults_none_cputime :
  (merge_limits_defaults sample_config (Some 2%positive)
     (sample_store {[ "cputime" := VNone ]})).1 = inl TypeError.
Proof. reflexivity. Qed.

(** C9. Merging an absent or empty limit set gives the default set, and
    merging that result again gives the same object with the same content:
    nothing in the store changes either time. The defaults are taken to
    hold [realtime], as a fully populated default set does. *)
Theorem merge_limits_defaults_idempotent (cfg : config) (h : store)
    (limits : option loc) (D : dict) :
  (forall l, limits = Some l -> is_Some (h !! l)) ->
  h !! DEFAULT_LIMITS cfg = Some D ->
  is_Some (D !! "realtime") ->
  supplied h limits = ∅ ->
  exists r,
    merge_limits_defaults cfg limits h = (inr r, h)
    /\ merge_limits_defaults cfg (Some r) h = (inr r, h)
    /\ h !! r = Some D.
Proof.
  intros Hlive HD [v Hrt] Hempty. exists (DEFAULT_LIMITS cfg).
  split; [now apply merge_run_falsy|]. split; [|exact HD].
  assert (Hne : D ≠ ∅) by (intros ->; now rewrite lookup_empty in Hrt).
  rewrite (merge_run_some cfg h _ D D) by assumption. cbv zeta.
  assert (Dict.contains D "realtime" = true) as -> by (apply contains_spec; eauto).
  now rewrite (idemp_L (∪)), insert_id.
Qed.

Lemma merge_limits_defaults_idempotent_witness :
  let h := sample_store ∅ in
  (supplied h None = ∅ /\ supplied h (Some 2%positive) = ∅)
  /\ (exists r,
        merge_limits_defaults sample_config None h = (inr r, h)
        /\ merge_limits_defaults sample_config (Some r) h = (inr r, h)
        /\ h !! r = Some sample_defaults)
  /\ (exists r,
        merge_limits_defaults sample_config (Some 2%positive) h = (inr r, h)
        /\ merge_limits_defaults sample_config (Some r) h = (inr r, h)
        /\ h !! r = Some sample_defaults).
Proof.
  intros h. split; [split; reflexivity|]. split.
  - apply (merge_limits_defaults_idempotent sample_config h None sample_defaults).
    + intros l [=].
    + reflexivity.
    + vm_compute. eauto.
    + reflexivity.
  - apply (merge_limits_defaults_idempotent sample_config h (Some 2%positive)
             sample_defaults).
    + intros l [= <-]. vm_compute. eauto.
    + reflexivity.
    + vm_compute. eauto.
    + reflexivity.
Defined.

(** * Ulimits *)

Section Ulimits.

Implicit Types (limits : dict) (v cputime file_size : value).

(** A number or nothing is never refused by the constructor. *)
Lemma new_Ulimit_limit_value name v :
  limit_value v ->
  new_Ulimit name v v = inr {| name := name; soft := v; hard := v |}.
Proof.
  intros [->|[n ->]]; unfold new_Ulimit; cbn; [reflexivity|].
  now destruct (n =? 0).
Qed.

(** The constructor refuses exactly what is truthy and not an integer. *)
Lemma new_Ulimit_refused name v :
  (refused v -> new_Ulimit name v v = inl ValueError)
  /\ (~ refused v ->
      new_Ulimit name v v = inr {| name := name; soft := v; hard := v |}).
Proof.
  unfold refused, new_Ulimit.
  destruct (truthy v), (is_int v); cbn; split; try done; intros H;
    (now destruct H) || (destruct H; now split).
Qed.

Lemma refused_dec v : {refused v} + {~ refused v}.
Proof.
  unfold refused. destruct (truthy v), (is_int v);
    (left; now split) || (right; now intros []).
Defined.

End Ulimits.

(** The constructor of [Ulimit] takes no text for a number: a [cputime] of
    ["10"] is truthy, and the call raises [ValueError]. *)
Example create_ulimits_text_cputime :
  create_ulimits {[ "cputime" := VStr "10"; "realtime" := VInt 1 ]}
  = inl ValueError.
Proof. reflexivity. Qed.

(** C6. On a limit set that holds [cputime], with a number or nothing for
    [cputime] and for [file_size] (the values a limit set has),
    [create_ulimits] returns; the entries it emits are the cpu entry, with
    soft and hard equal to [cputime], exactly when [cputime] is truthy,
    followed by the fsize entry, with soft and hard equal to [file_size],
    exactly when the key [file_size] is there; it returns [None], never an
    empty list, exactly when it emitted no entry. *)
Theorem create_ulimits_entries (limits : dict) (cputime : value) :
  limits !! "cputime" = Some cputime ->
  limit_value cputime ->
  (forall file_size,
      limits !! "file_size" = Some file_size -> limit_value file_size) ->
  exists ulimits,
    create_ulimits limits = inr ulimits
    /\ default [] ulimits
       = (if truthy cputime then [cpu_entry cputime] else [])
           ++ match limits !! "file_size" with
              | Some file_size => [fsize_entry file_size]
              | None => []
              end
    /\ (cpu_entry cputime ∈ default [] ulimits <-> truthy cputime = true)
    /\ ((exists file_size, fsize_entry file_size ∈ default [] ulimits)
        <-> is_Some (limits !! "file_size"))
    /\ (ulimits = None
        <-> truthy cputime = false /\ limits !! "file_size" = None)
    /\ ulimits <> Some [].
Proof.
  intros Hcpu Hcputime Hfsize. unfold create_ulimits, Dict.getitem.
  rewrite Hcpu. cbn [mbind exn_bind].
  rewrite (new_Ulimit_limit_value "cpu" cputime Hcputime).
  unfold cpu_entry, fsize_entry.
  destruct (limits !! "file_size") as [file_size|] eqn:Hfs.
  - rewrite (new_Ulimit_limit_value "fsize" file_size (Hfsize _ eq_refl)).
    destruct (truthy cputime);
      cbn [mbind exn_bind mret exn_ret app]; eexists;
      (split; [reflexivity|]); cbn [default app];
      (split; [reflexivity|]);
      repeat setoid_rewrite elem_of_cons; repeat setoid_rewrite elem_of_nil;
      unfold is_Some; firstorder (try congruence); eauto.
  - destruct (truthy cputime);
      cbn [mbind exn_bind mret exn_ret app]; eexists;
      (split; [reflexivity|]); cbn [default app];
      (split; [reflexivity|]);
      repeat setoid_rewrite elem_of_cons; repeat setoid_rewrite elem_of_nil;
      unfold is_Some; firstorder (try congruence); eauto.
Qed.

Lemma create_ulimits_entries_witness :
  create_ulimits {[ "cputime" := VInt 1; "file_size" := VInt 10 ]}
  = inr (Some [cpu_entry (VInt 1); fsize_entry (VInt 10)])
  /\ create_ulimits {[ "cputime" := VInt 0; "memory" := VInt 64 ]} = inr None.
Proof.
  split.
  - destruct (create_ulimits_entries
                {[ "cputime" := VInt 1; "file_size" := VInt 10 ]} (VInt 1))
      as (ulimits & -> & Hentries & _).
    + reflexivity.
    + right. eauto.
    + intros file_size [= <-]. right. eauto.
    + destruct ulimits as [entries|].
      * simpl in Hentries. rewrite Hentries. reflexivity.
      * vm_compute in Hentries. discriminate.
  - destruct (create_ulimits_entries
                {[ "cputime" := VInt 0; "memory" := VInt 64 ]} (VInt 0))
      as (ulimits & -> & _ & _ & _ & Hnone & _).
    + reflexivity.
    + right. eauto.
    + intros file_size Hfs. vm_compute in Hfs. discriminate.
    + f_equal. apply Hnone. split; reflexivity.
Defined.

(** * Truncation of results *)

Section Truncate.

Implicit Types (result truncated : dict) (k : string) (v : value).

(** The loop visits every entry once and stores what [truncate_value]
    makes of it. *)
Lemma truncate_result_lookup result :
  (forall k v, result !! k = Some v -> exists v', truncate_value k v = inr v') ->
  exists truncated,
    truncate_result result = inr truncated
    /\ dom truncated = dom result
    /\ forall k v, result !! k = Some v ->
         exists v', truncate_value k v = inr v' /\ truncated !! k = Some v'.
Proof.
  unfold truncate_result.
  apply (map_fold_weak_ind (fun (run : exn + dict) (m : dict) =>
    (forall k v, m !! k = Some v -> exists v', truncate_value k v = inr v') ->
    exists truncated,
      run = inr truncated
      /\ dom truncated = dom m
      /\ forall k v, m !! k = Some v ->
           exists v', truncate_value k v = inr v' /\ truncated !! k = Some v')).
  - intros _. exists ∅. split; [reflexivity|]. split; [reflexivity|].
    intros k v Hk. now rewrite lookup_empty in Hk.
  - intros k v m run Hfresh IH Hok.
    destruct IH as (truncated & -> & Hdom & Hall).
    { intros k' v' Hk'. apply (Hok k' v').
      rewrite lookup_insert_ne; [done|]. intros ->. congruence. }
    destruct (Hok k v) as [v' Hv']; [apply lookup_insert_eq|].
    exists (<[k := v']> truncated). cbn [mbind exn_bind]. rewrite Hv'.
    split; [reflexivity|]. split; [now rewrite !dom_insert_L, Hdom|].
    intros k0 v0 Hk0. destruct (decide (k = k0)) as [<-|Hne].
    + rewrite lookup_insert_eq in Hk0. injection Hk0 as <-.
      exists v'. now rewrite lookup_insert_eq.
    + rewrite lookup_insert_ne in Hk0 by done.
      rewrite lookup_insert_ne by done. now apply Hall.
Qed.

Lemma truncate_value_other k v :
  k ∉ ({["stdout"; "stderr"]} : gset string) -> truncate_value k v = inr v.
Proof. intros Hk. unfold truncate_value. now rewrite bool_decide_eq_false_2. Qed.

Lemma truncate_value_bytes k bs :
  k ∈ ({["stdout"; "stderr"]} : gset string) ->
  truncate_value k (VBytes bs) =
  inr (if Bytes.len bs <=? MAX_OUTPUT_LENGTH then VBytes bs
       else VBytes (take (Z.to_nat MAX_OUTPUT_LENGTH) bs ++ truncation_marker)).
Proof.
  intros Hk. unfold truncate_value. rewrite bool_decide_eq_true_2 by done.
  cbn [py_len mbind exn_bind].
  destruct (Z.gtb_spec (Bytes.len bs) MAX_OUTPUT_LENGTH),
           (Z.leb_spec (Bytes.len bs) MAX_OUTPUT_LENGTH); try lia; [|done].
  cbn [py_slice_to py_add_bytes]. unfold Bytes.slice_to.
  rewrite slice_nonneg by (unfold MAX_OUTPUT_LENGTH; lia).
  now rewrite Z.sub_0_r.
Qed.

End Truncate.

(** C7. On a result whose [stdout] and [stderr], where present, are byte
    strings, [truncate_result] returns a mapping with the same keys in
    which every value under another key is the one given, an output of at
    most [MAX_OUTPUT_LENGTH] bytes is the one given, and a longer output is
    its first [MAX_OUTPUT_LENGTH] bytes followed by the marker. *)
Theorem truncate_result_outputs (result : dict) :
  (forall k v, k ∈ ({["stdout"; "stderr"]} : gset string) ->
               result !! k = Some v -> exists bs, v = VBytes bs) ->
  exists truncated,
    truncate_result result = inr truncated
    /\ dom truncated = dom result
    /\ (forall k, k ∉ ({["stdout"; "stderr"]} : gset string) ->
                  truncated !! k = result !! k)
    /\ (forall k bs, k ∈ ({["stdout"; "stderr"]} : gset string) ->
          result !! k = Some (VBytes bs) ->
          Bytes.len bs <= MAX_OUTPUT_LENGTH ->
          truncated !! k = Some (VBytes bs))
    /\ (forall k bs, k ∈ ({["stdout"; "stderr"]} : gset string) ->
          result !! k = Some (VBytes bs) ->
          Bytes.len bs > MAX_OUTPUT_LENGTH ->
          truncated !! k
          = Some (VBytes (take (Z.to_nat MAX_OUTPUT_LENGTH) bs
                            ++ truncation_marker))).
Proof.
  intros Hbytes.
  destruct (truncate_result_lookup result) as (truncated & Hrun & Hdom & Hall).
  { intros k v Hk.
    destruct (decide (k ∈ ({["stdout"; "stderr"]} : gset string))) as [Hin|Hout].
    - destruct (Hbytes k v Hin Hk) as [bs ->].
      rewrite truncate_value_bytes by done. eauto.
    - rewrite truncate_value_other by done. eauto. }
  exists truncated. split; [exact Hrun|]. split; [exact Hdom|].
  split; [|split].
  - intros k Hout. destruct (result !! k) as [v|] eqn:Hk.
    + destruct (Hall k v Hk) as (v' & Hv' & ->).
      rewrite truncate_value_other in Hv' by done. congruence.
    + apply not_elem_of_dom. rewrite Hdom. now apply not_elem_of_dom.
  - intros k bs Hin Hk Hshort.
    destruct (Hall k _ Hk) as (v' & Hv' & ->).
    rewrite truncate_value_bytes in Hv' by done.
    destruct (Z.leb_spec (Bytes.len bs) MAX_OUTPUT_LENGTH); [congruence|lia].
  - intros k bs Hin Hk Hlong.
    destruct (Hall k _ Hk) as (v' & Hv' & ->).
    rewrite truncate_value_bytes in Hv' by done.
    destruct (Z.leb_spec (Bytes.len bs) MAX_OUTPUT_LENGTH); [lia|congruence].
Qed.

Lemma truncate_result_outputs_witness :
  exists truncated,
    truncate_result sample_result = inr truncated
    /\ truncated !! "exit_code" = Some (VInt 0)
    /\ truncated !! "stderr" = Some (VBytes ["o"; "k"]%byte)
    /\ truncated !! "stdout"
       = Some (VBytes (replicate 100 "a"%byte ++ truncation_marker)).
Proof.
  destruct (truncate_result_outputs sample_result)
    as (truncated & Hrun & _ & Hother & Hshort & Hlong).
  - intros k v Hk Hv. apply elem_of_union in Hk as [Hk|Hk];
      apply elem_of_singleton in Hk; subst k;
      vm_compute in Hv; injection Hv as <-; eauto.
  - exists truncated. split; [exact Hrun|]. split; [|split].
    + rewrite Hother; [reflexivity|].
      apply not_elem_of_union; split; apply not_elem_of_singleton; discriminate.
    + apply Hshort; [set_solver|reflexivity|vm_compute; discriminate].
    + apply (Hlong "stdout" (replicate 103 "a"%byte));
        [set_solver|reflexivity|reflexivity].
Defined.

(** * Exit statuses *)

(** C8. A status counts as killed exactly when it is 128 + 9 or 128 + 24;
    so 137 and 152 do and 139 does not. *)
Theorem is_killed_by_sigkill_or_sigxcpu_spec :
  (forall status : Z,
      is_killed_by_sigkill_or_sigxcpu status = true
      <-> status - 128 = 9 \/ status - 128 = 24)
  /\ is_killed_by_sigkill_or_sigxcpu 137 = true
  /\ is_killed_by_sigkill_or_sigxcpu 152 = true
  /\ is_killed_by_sigkill_or_sigxcpu 139 = false.
Proof.
  split; [|repeat split; reflexivity].
  intros status. unfold is_killed_by_sigkill_or_sigxcpu, SIGKILL, SIGXCPU.
  rewrite bool_decide_eq_true. set_solver.
Qed.

(** * The client cache *)

Section Cache.

Variable cfg : config.
Implicit Types (st : Client.clients) (r : Client.request)
         (rs : list Client.request) (key : Client.client_key) (client : loc).

Lemma serve_keeps_entry st r key client :
  Client._DOCKER_CLIENTS st !! key = Some client ->
  Client._DOCKER_CLIENTS (Client.serve cfg st r) !! key = Some client.
Proof.
  intros Hkey. unfold Client.serve, Client.get_docker_client.
  destruct (Client._DOCKER_CLIENTS st
              !! (Client.req_retry_read r, Client.req_retry_status_forcelist r))
    as [hit|] eqn:Hhit; [exact Hkey|].
  cbn. rewrite lookup_insert_ne; [exact Hkey|]. congruence.
Qed.

Lemma serve_keeps_object st r client o :
  Client.objects st !! client = Some o ->
  Client.objects (Client.serve cfg st r) !! client = Some o.
Proof.
  intros Hobj. unfold Client.serve, Client.get_docker_client.
  destruct (Client._DOCKER_CLIENTS st
              !! (Client.req_retry_read r, Client.req_retry_status_forcelist r))
    as [hit|]; [exact Hobj|].
  cbn. rewrite lookup_insert_ne; [exact Hobj|].
  intros Heq. pose proof (is_fresh (dom (Client.objects st))) as Hfresh.
  rewrite Heq in Hfresh. apply Hfresh, elem_of_dom. eauto.
Qed.

Lemma serve_all_keeps_entry rs : forall st key client,
  Client._DOCKER_CLIENTS st !! key = Some client ->
  Client._DOCKER_CLIENTS (Client.serve_all cfg st rs) !! key = Some client.
Proof.
  induction rs as [|r rs IH]; intros st key client Hkey; [exact Hkey|].
  apply IH. now apply serve_keeps_entry.
Qed.

Lemma serve_all_keeps_object rs : forall st client o,
  Client.objects st !! client = Some o ->
  Client.objects (Client.serve_all cfg st rs) !! client = Some o.
Proof.
  induction rs as [|r rs IH]; intros st client o Hobj; [exact Hobj|].
  apply IH. now apply serve_keeps_object.
Qed.

(** After any call the key of the call is in the cache, bound to the
    client the call returned. *)
Lemma get_docker_client_caches st base_url retry_read forcelist :
  let answer := Client.get_docker_client cfg base_url retry_read forcelist st in
  Client._DOCKER_CLIENTS answer.2 !! (retry_read, forcelist) = Some answer.1.
Proof.
  unfold Client.get_docker_client.
  destruct (Client._DOCKER_CLIENTS st !! _) as [hit|] eqn:Hhit; cbn.
  - exact Hhit.
  - apply lookup_insert_eq.
Qed.

End Cache.

(** C10. Once a call has returned a client for some retry parameters, every
    later call with these retry parameters, whatever else was asked of the
    cache in between and whatever its [base_url], returns that same client
    and leaves the cache as it is; the client object is still the one
    first built, so when the first call created it, its URL is the one of
    the first call. *)
Theorem get_docker_client_ignores_base_url (cfg : config)
    (st : Client.clients) (base_url base_url' : option string)
    (retry_read : Z) (retry_status_forcelist : list Z)
    (between : list Client.request) :
  let first :=
    Client.get_docker_client cfg base_url retry_read retry_status_forcelist st in
  let later := Client.serve_all cfg first.2 between in
  Client.get_docker_client cfg base_url' retry_read retry_status_forcelist later
  = (first.1, later)
  /\ (forall o, Client.objects first.2 !! first.1 = Some o ->
                Client.objects later !! first.1 = Some o)
  /\ (Client._DOCKER_CLIENTS st !! (retry_read, retry_status_forcelist) = None ->
      exists o, Client.objects later !! first.1 = Some o
                /\ Client.base_url o
                   = Client.url_or base_url (DOCKER_URL cfg)).
Proof.
  intros first later.
  pose proof (get_docker_client_caches cfg st base_url retry_read
                retry_status_forcelist) as Hcached.
  fold first in Hcached. cbv zeta in Hcached.
  split; [|split].
  - unfold Client.get_docker_client at 1.
    unfold later. now rewrite (serve_all_keeps_entry cfg between _ _ _ Hcached).
  - intros o Hobj. now apply serve_all_keeps_object.
  - intros Hmiss. eexists. split.
    + apply serve_all_keeps_object. unfold first, Client.get_docker_client.
      rewrite Hmiss. cbn. apply lookup_insert_eq.
    + reflexivity.
Qed.

Lemma get_docker_client_ignores_base_url_witness :
  let first :=
    Client.get_docker_client sample_config (Some "tcp://10.0.0.1:2375")
      5 [500] Client.no_clients in
  let later :=
    Client.serve_all sample_config first.2
      [ {| Client.req_base_url := None; Client.req_retry_read := 5;
           Client.req_retry_status_forcelist := [404; 500] |} ] in
  Client.get_docker_client sample_config (Some "tcp://10.0.0.2:2375") 5 [500]
    later = (first.1, later)
  /\ exists o, Client.objects later !! first.1 = Some o
               /\ Client.base_url o = "tcp://10.0.0.1:2375".
Proof.
  intros first later.
  destruct (get_docker_client_ignores_base_url sample_config Client.no_clients
              (Some "tcp://10.0.0.1:2375") (Some "tcp://10.0.0.2:2375")
              5 [500]
              [ {| Client.req_base_url := None; Client.req_retry_read := 5;
                   Client.req_retry_status_forcelist := [404; 500] |} ])
    as (Hsame & _ & Hurl).
  split; [exact Hsame|]. apply Hurl. reflexivity.
Defined.

(** * The I/O pump *)

Section Round.

Implicit Types (t : tick) (st : pump) (script : list tick).

Lemma extends_refl st : extends st st.
Proof. split; [reflexivity|]. exists []. now rewrite app_nil_r. Qed.

Lemma extends_trans st1 st2 st3 :
  extends st1 st2 -> extends st2 st3 -> extends st1 st3.
Proof.
  intros [Hc1 (n1 & Hn1 & Hq1)] [Hc2 (n2 & Hn2 & Hq2)].
  split; [congruence|]. exists (n1 ++ n2).
  rewrite Hn2, Hn1, app_assoc. split; [reflexivity|]. now apply Forall_app.
Qed.

Lemma extends_record c st :
  stops_container c = false -> extends st (record c st).
Proof.
  intros Hc. split; [reflexivity|]. exists [c]. split; [reflexivity|].
  now constructor.
Qed.

(** The read of a round. *)
Lemma read_part_round t st :
  extends st (state_of (read_part t st))
  /\ match read_part t st with
     | Continue _ => True
     | Break _ =>
         _socket_read (rd t) = inr None
         \/ exists e, _socket_read (rd t) = inl e
                      /\ is_ConnectionResetError e = true
     | Propagate e _ =>
         _socket_read (rd t) = inl e /\ is_ConnectionResetError e = false
     end.
Proof.
  unfold read_part.
  pose proof (extends_record SocketRead st eq_refl) as Hrec.
  destruct (_socket_read (rd t)) as [e|[data|]];
    [destruct (is_ConnectionResetError e) eqn:He| |]; cbn [state_of];
    (split; [exact Hrec|]); eauto.
Qed.

(** The write of a round. *)
Lemma write_part_round t st :
  extends st (state_of (write_part t st))
  /\ match write_part t st with
     | Continue _ => True
     | Break _ =>
         exists e, _socket_write (wr t) = inl e
                   /\ is_BrokenPipeError e = true
     | Propagate e _ =>
         _socket_write (wr t) = inl e /\ is_BrokenPipeError e = false
     end.
Proof.
  unfold write_part.
  pose proof (extends_record (SocketWrite (default [] (stdin st))) st eq_refl)
    as Hrec.
  destruct (_socket_write (wr t)) as [e|written];
    [destruct (is_BrokenPipeError e) eqn:He|]; cbn [state_of];
    (split; [try exact Hrec|]); eauto.
  set (st1 := {| stream_data := _ |}).
  assert (Hst1 : extends st st1) by exact Hrec.
  destruct (has_input st1); [exact Hst1|].
  eapply extends_trans; [exact Hst1|]. now apply extends_record.
Qed.

(** One round: it never touches the life of the container and never
    closes the socket; it lets an exception through only if an answer
    raised one that the loop does not catch, and it breaks only on an
    end of the session. *)
Lemma loop_body_round t st :
  extends st (state_of (loop_body t st))
  /\ match loop_body t st with
     | Continue _ => True
     | Break _ => ends_session t
     | Propagate _ _ => tolerated t = false
     end.
Proof.
  unfold loop_body, tolerated, ends_session.
  destruct (sel t) as [e|[read_ready write_ready]].
  { cbn [state_of]. split; [now apply extends_record|reflexivity]. }
  set (st0 := record Select st).
  assert (H0 : extends st st0) by now apply extends_record.
  set (is_io_active := read_ready || write_ready && has_input st0).
  clearbody st0 is_io_active.
  assert (Hread : exists r1,
             (if read_ready then read_part t st0 else Continue st0) = r1
             /\ extends st (state_of r1)
             /\ match r1 with
                | Continue _ => True
                | Break _ =>
                    read_ready = true
                    /\ (_socket_read (rd t) = inr None
                        \/ exists e, _socket_read (rd t) = inl e
                                     /\ is_ConnectionResetError e = true)
                | Propagate e _ =>
                    _socket_read (rd t) = inl e
                    /\ is_ConnectionResetError e = false
                end).
  { eexists. split; [reflexivity|]. destruct read_ready.
    - destruct (read_part_round t st0) as [Hext Hcase].
      split; [now apply (extends_trans st st0)|].
      destruct (read_part t st0); auto.
    - cbn [state_of]. auto. }
  destruct Hread as (r1 & -> & Hext1 & Hcase1).
  destruct r1 as [st1|st1|e st1]; cbn [state_of] in *.
  2:{ split; [exact Hext1|]. destruct Hcase1 as [-> Hend].
      exists true, write_ready. split; [reflexivity|]. now left. }
  2:{ split; [exact Hext1|]. destruct Hcase1 as [-> ->]. reflexivity. }
  assert (Hwrite : exists r2,
             (if write_ready && has_input st1 then write_part t st1
              else Continue st1) = r2
             /\ extends st (state_of r2)
             /\ match r2 with
                | Continue _ => True
                | Break _ =>
                    write_ready = true
                    /\ exists e, _socket_write (wr t) = inl e
                                 /\ is_BrokenPipeError e = true
                | Propagate e _ =>
                    _socket_write (wr t) = inl e
                    /\ is_BrokenPipeError e = false
                end).
  { eexists. split; [reflexivity|].
    destruct (write_ready && has_input st1) eqn:Hw.
    - destruct (write_part_round t st1) as [Hext Hcase].
      split; [now apply (extends_trans st st1)|].
      apply andb_prop in Hw as [-> _].
      destruct (write_part t st1); auto.
    - cbn [state_of]. auto. }
  destruct Hwrite as (r2 & -> & Hext2 & Hcase2).
  destruct r2 as [st2|st2|e st2]; cbn [state_of] in *.
  - split; [|exact I]. destruct (negb is_io_active); [|exact Hext2].
    eapply extends_trans; [exact Hext2|]. now apply extends_record.
  - split; [exact Hext2|]. destruct Hcase2 as [-> Hend].
    exists read_ready, true. split; [reflexivity|]. now right.
  - split; [exact Hext2|]. destruct Hcase2 as [-> ->]. apply andb_false_r.
Qed.

End Round.

Section Buffer.

Implicit Types (t : tick) (st : pump) (script : list tick).

Lemma read_part_stream t st :
  stream_data (state_of (read_part t st))
  = stream_data st
      ++ match _socket_read (rd t) with inr (Some data) => data | _ => [] end.
Proof.
  unfold read_part.
  destruct (_socket_read (rd t)) as [e|[data|]];
    [destruct (is_ConnectionResetError e)| |];
    cbn [state_of record stream_data]; now rewrite ?app_nil_r.
Qed.

Lemma write_part_stream t st :
  stream_data (state_of (write_part t st)) = stream_data st.
Proof.
  unfold write_part.
  destruct (_socket_write (wr t)) as [e|written];
    [destruct (is_BrokenPipeError e)|]; cbn [state_of record stream_data];
    try reflexivity.
  now case_match.
Qed.

Lemma loop_body_stream t st :
  stream_data (state_of (loop_body t st)) = stream_data st ++ chunk_of t.
Proof.
  unfold loop_body, chunk_of.
  destruct (sel t) as [e|[read_ready write_ready]];
    [cbn [state_of record stream_data]; now rewrite app_nil_r|].
  set (st0 := record Select st).
  set (is_io_active := read_ready || write_ready && has_input st0).
  assert (Hread :
            stream_data
              (state_of (if read_ready then read_part t st0 else Continue st0))
            = stream_data st
                ++ (if read_ready
                    then match _socket_read (rd t) with
                         | inr (Some data) => data
                         | _ => []
                         end
                    else [])).
  { destruct read_ready; [exact (read_part_stream t st0)|].
    cbn [state_of]. now rewrite app_nil_r. }
  set (r1 := if read_ready then read_part t st0 else Continue st0) in *.
  clearbody r1. destruct r1 as [st1|st1|e st1]; cbn [state_of] in Hread |- *;
    [|exact Hread..].
  set (r2 := if write_ready && has_input st1 then write_part t st1
             else Continue st1).
  assert (Hwrite : stream_data (state_of r2) = stream_data st1).
  { unfold r2. destruct (write_ready && has_input st1);
      [apply write_part_stream|reflexivity]. }
  clearbody r2. destruct r2 as [st2|st2|e st2]; cbn [state_of] in Hwrite |- *;
    [destruct (negb is_io_active); cbn [record stream_data]|..]; congruence.
Qed.

End Buffer.

(** ** Before the loop *)

Section Attach.

Variable cfg : config.
Implicit Types (env : setup) (cache : Client.clients).

Lemma attach_inv env :
  attach env = inr tt -> client env = inr tt /\ attach_socket env = inr tt.
Proof.
  unfold attach. destruct (client env) as [e|[]]; [discriminate|].
  destruct (attach_socket env) as [e|[]]; [discriminate|done].
Qed.

Lemma get_docker_client_or_raise_built base_url retry_read forcelist cache :
  Client.get_docker_client_or_raise (inr tt) cfg base_url retry_read forcelist
    cache
  = (inr (Client.get_docker_client cfg base_url retry_read forcelist cache).1,
     (Client.get_docker_client cfg base_url retry_read forcelist cache).2).
Proof.
  unfold Client.get_docker_client_or_raise.
  destruct (Client.get_docker_client _ _ _ _ _) as [c cache'].
  now destruct (Client._DOCKER_CLIENTS cache !! _).
Qed.

(** The call, once the client is there and the socket attached. *)
Lemma docker_communicate_attached env script stdin start_container timeout
    cache :
  client env = inr tt -> attach_socket env = inr tt ->
  docker_communicate cfg env script stdin start_container timeout cache
  = let st0 := {| stream_data := []; stdin := stdin; sock_closed := false;
                  calls := [] |} in
    let st1 := record (SetBlocking false) (record AttachSocket st0) in
    let st2 := if has_input st1 then st1 else record ShutdownWrite st1 in
    let cache' :=
      (Client.get_docker_client cfg None (default_retry_read env) [404; 500]
         cache).2 in
    match (if start_container then start env else inr tt) with
    | inl e => (Raised e, record ContainerStart st2, cache')
    | inr _ =>
        (communicate_loop (start_time env) timeout script
           (if start_container then record ContainerStart st2 else st2),
         cache')
    end.
Proof.
  intros Hclient Hattach. unfold docker_communicate.
  rewrite Hclient, get_docker_client_or_raise_built, Hattach. reflexivity.
Qed.

End Attach.

(** ** The rounds, one by one *)

Section Verdicts.

Implicit Types (t : tick) (st : pump) (input : option bytes).

Lemma has_input_left st : has_input st = left_to_send (stdin st).
Proof. reflexivity. Qed.

Lemma writes_snoc cs c :
  writes (cs ++ [c])
  = writes cs ++ match c with SocketWrite data => [data] | _ => [] end.
Proof. unfold writes. rewrite flat_map_app. cbn. now rewrite app_nil_r. Qed.

(** A round that does not end the session goes on; the input left
    afterwards and what the round offered are as the answers say. *)
Lemma loop_body_goes_on t st :
  tolerated t = true -> session_ends (stdin st) t = false ->
  exists st',
    loop_body t st = Continue st'
    /\ stdin st' = input_after (stdin st) t
    /\ writes (calls st') = writes (calls st) ++ offer (stdin st) t.
Proof.
  unfold loop_body, tolerated, session_ends, input_after, offer,
    read_ends, write_ends.
  destruct (sel t) as [e|[read_ready write_ready]]; [discriminate|].
  intros Hok Hgo. apply andb_prop in Hok as [Hrd Hwr].
  apply orb_false_elim in Hgo as [Hgo_r Hgo_w].
  set (st0 := record Select st).
  assert (H0 : stdin st0 = stdin st /\ writes (calls st0) = writes (calls st)).
  { split; [reflexivity|]. unfold st0. cbn [calls record].
    now rewrite writes_snoc, app_nil_r. }
  assert (Hread : exists st1,
             (if read_ready then read_part t st0 else Continue st0)
             = Continue st1
             /\ stdin st1 = stdin st
             /\ writes (calls st1) = writes (calls st)).
  { destruct read_ready; [|exists st0; now split].
    unfold read_part. cbn [andb] in Hgo_r.
    destruct (_socket_read (rd t)) as [e|[data|]]; [congruence| |discriminate].
    eexists. split; [reflexivity|]. cbn [stdin calls record].
    split; [reflexivity|]. now rewrite writes_snoc, app_nil_r. }
  destruct Hread as (st1 & -> & Hin1 & Hw1).
  rewrite !has_input_left. change (stdin st0) with (stdin st). rewrite Hin1.
  assert (Hidle : forall (idle : bool) st2,
            stdin (if idle then record Sleep st2 else st2) = stdin st2
            /\ writes (calls (if idle then record Sleep st2 else st2))
               = writes (calls st2)).
  { intros [] st2; cbn [stdin calls record];
      rewrite ?writes_snoc, ?app_nil_r; now split. }
  destruct write_ready; cbn [andb orb] in *.
  2:{ eexists. split; [reflexivity|].
      destruct (Hidle (negb (read_ready || false)) st1) as [-> ->].
      rewrite app_nil_r. now split. }
  destruct (left_to_send (stdin st)) eqn:Hleft; cbn [andb orb] in *.
  2:{ eexists. split; [reflexivity|].
      destruct (Hidle (negb (read_ready || false)) st1) as [-> ->].
      rewrite app_nil_r. now destruct (_socket_write (wr t)). }
  unfold write_part. rewrite <- Hin1.
  destruct (_socket_write (wr t)) as [e|written]; [congruence|].
  set (st2 := {| stream_data := _ |}).
  assert (H2 : stdin st2 = Some (Bytes.slice_from (default [] (stdin st1)) written)
               /\ writes (calls st2)
                  = writes (calls st) ++ [default [] (stdin st1)]).
  { split; [reflexivity|]. unfold st2. cbn [calls record].
    now rewrite writes_snoc, Hw1. }
  clearbody st2. destruct H2 as [Hin2 Hw2].
  eexists. split; [reflexivity|].
  destruct (Hidle (negb (read_ready || true))
              (if has_input st2 then st2 else record ShutdownWrite st2))
    as [-> ->].
  destruct (has_input st2); cbn [stdin calls record];
    rewrite ?writes_snoc, ?app_nil_r; now split.
Qed.

(** A round that ends the session leaves the loop. *)
Lemma loop_body_ends t st :
  tolerated t = true -> session_ends (stdin st) t = true ->
  exists st', loop_body t st = Break st'.
Proof.
  unfold loop_body, tolerated, session_ends, read_ends, write_ends.
  destruct (sel t) as [e|[read_ready write_ready]]; [discriminate|].
  intros Hok Hend. apply andb_prop in Hok as [Hrd Hwr].
  set (st0 := record Select st).
  destruct read_ready; cbn [andb orb] in Hend.
  - unfold read_part.
    destruct (_socket_read (rd t)) as [e|[data|]]; cbn [orb] in Hend.
    + rewrite Hrd. eauto.
    + rewrite !has_input_left. cbn [stdin record].
      change (stdin st0) with (stdin st).
      apply andb_prop in Hend as [Hw Hpipe]. rewrite Hw.
      unfold write_part.
      destruct (_socket_write (wr t)) as [e|written]; [|discriminate].
      rewrite Hpipe. eauto.
    + eauto.
  - rewrite !has_input_left. change (stdin st0) with (stdin st).
    apply andb_prop in Hend as [Hw Hpipe]. rewrite Hw.
    unfold write_part.
    destruct (_socket_write (wr t)) as [e|written]; [|discriminate].
    rewrite Hpipe. eauto.
Qed.

(** An error that the round lets through leaves the loop as it is. *)
Lemma loop_body_lets_through t st e :
  lets_through (stdin st) t e -> exists st', loop_body t st = Propagate e st'.
Proof.
  unfold loop_body, lets_through.
  intros [Hsel|(read_ready & write_ready & Hsel & Hcase)]; rewrite Hsel;
    [eauto|].
  set (st0 := record Select st).
  destruct Hcase as [(-> & Hrd & Hreset)|(Hdata & -> & Hleft & Hwr & Hpipe)].
  - unfold read_part. rewrite Hrd, Hreset. eauto.
  - assert (Hread : exists st1,
               (if read_ready then read_part t st0 else Continue st0)
               = Continue st1 /\ stdin st1 = stdin st).
    { destruct read_ready; [|exists st0; now split].
      destruct (Hdata eq_refl) as [data Hrd]. unfold read_part. rewrite Hrd.
      eexists. split; reflexivity. }
    destruct Hread as (st1 & -> & Hin1).
    rewrite (has_input_left st1), Hin1, Hleft. cbn [andb].
    unfold write_part. rewrite Hwr, Hpipe. eauto.
Qed.

(** [data[:n] + data[n:] == data], for every [n]. *)
Lemma slice_to_from (data : bytes) (n : Z) :
  Bytes.slice_to data n ++ Bytes.slice_from data n = data.
Proof.
  unfold Bytes.slice_to, Bytes.slice_from, Bytes.slice, Bytes.clamp.
  pose proof (len_nonneg data) as Hlen.
  destruct (Z.ltb_spec 0 0); [lia|].
  destruct (Z.ltb_spec (Bytes.len data) 0); [lia|].
  rewrite Z.min_id, (Z.min_l 0) by lia.
  change (Z.to_nat 0) with 0%nat. cbn [drop].
  set (k := if n <? 0 then _ else _).
  assert (0 <= k <= Bytes.len data)
    by (unfold k; destruct (Z.ltb_spec n 0); lia).
  clearbody k. rewrite Z.sub_0_r.
  rewrite (take_ge (drop (Z.to_nat k) data))
    by (rewrite length_drop; unfold Bytes.len in *; lia).
  apply take_drop.
Qed.

(** What a round that goes on takes off the input, and what it leaves,
    make up the input. *)
Lemma taken_input_after input t :
  taken input t ++ default [] (input_after input t) = default [] input.
Proof.
  unfold taken, input_after.
  destruct (sel t) as [e|[read_ready [|]]]; try reflexivity.
  destruct (_socket_write (wr t)) as [e|written]; [reflexivity|].
  destruct (left_to_send input); [|reflexivity].
  apply slice_to_from.
Qed.

End Verdicts.

(** ** The rounds the loop goes through *)

Section Through.

Variables (start_time : Z) (timeout : option Z).
Implicit Types (t : tick) (st : pump) (script rounds : list tick).

(** Rounds in time that raise nothing the loop does not catch and do not
    end the session are gone through one after the other; the state then
    holds the input left, the chunks read and the writes offered. *)
Lemma communicate_loop_through rounds : forall st rest,
  Forall (fun t => loop_test start_time timeout t = true) rounds ->
  Forall (fun t => tolerated t = true) rounds ->
  goes_on (stdin st) rounds = true ->
  exists st',
    communicate_loop start_time timeout (rounds ++ rest) st
    = communicate_loop start_time timeout rest st'
    /\ extends st st'
    /\ stdin st' = input_left (stdin st) rounds
    /\ stream_data st' = stream_data st ++ concat (map chunk_of rounds)
    /\ writes (calls st') = writes (calls st) ++ offers (stdin st) rounds.
Proof.
  induction rounds as [|t rounds IH]; intros st rest Htime Hok Hgo.
  { exists st. cbn. rewrite !app_nil_r. repeat split; try done.
    apply extends_refl. }
  apply Forall_cons in Htime as [Htime_t Htime].
  apply Forall_cons in Hok as [Hok_t Hok].
  cbn [goes_on] in Hgo. apply andb_prop in Hgo as [Hgo_t Hgo].
  apply negb_true_iff in Hgo_t.
  destruct (loop_body_goes_on t st Hok_t Hgo_t) as (st1 & Hbody & Hin & Hw).
  pose proof (loop_body_round t st) as [Hext _].
  pose proof (loop_body_stream t st) as Hdata.
  rewrite Hbody in Hext, Hdata. cbn [state_of] in Hext, Hdata.
  rewrite <- Hin in Hgo.
  destruct (IH st1 rest Htime Hok Hgo)
    as (st' & Hrun & Hext' & Hin' & Hdata' & Hw').
  exists st'. cbn [app communicate_loop]. rewrite Htime_t, Hbody.
  split; [exact Hrun|]. split; [now apply (extends_trans st st1)|].
  split; [now rewrite Hin', Hin|].
  split; [rewrite Hdata', Hdata; cbn [map concat]; now rewrite app_assoc|].
  rewrite Hw', Hw, Hin. cbn [offers]. now rewrite app_assoc.
Qed.

(** Whatever the answers, the loop makes no call that stops, kills or
    removes the container. *)
Lemma communicate_loop_quiet script : forall st,
  Forall (fun c => stops_container c = false) (calls st) ->
  Forall (fun c => stops_container c = false)
    (calls (communicate_loop start_time timeout script st).2).
Proof.
  assert (Hclose : forall st,
            Forall (fun c => stops_container c = false) (calls st) ->
            Forall (fun c => stops_container c = false) (calls (close st))).
  { intros st Hst. cbn [calls close]. apply Forall_app. split; [exact Hst|].
    now constructor. }
  induction script as [|t script IH]; intros st Hst; [exact Hst|].
  cbn [communicate_loop].
  destruct (loop_test start_time timeout t); [|now apply Hclose].
  pose proof (loop_body_round t st) as [[_ (new & Hnew & Hquiet)] _].
  assert (Hbody : Forall (fun c => stops_container c = false)
                    (calls (state_of (loop_body t st)))).
  { rewrite Hnew. now apply Forall_app. }
  destruct (loop_body t st) as [st1|st1|e st1]; cbn [state_of] in Hbody.
  - now apply IH.
  - unfold finish. destruct (demultiplex_docker_stream _); now apply Hclose.
  - exact Hbody.
Qed.

(** With a clock that reaches the deadline at some round, there is a first
    round that ends the session or whose test finds the deadline
    reached. *)
Lemma first_end (limit : Z) script : forall input,
  Exists (fun t => loop_test start_time (Some limit) t = false) script ->
  exists before t after,
    script = before ++ t :: after
    /\ Forall (fun t => loop_test start_time (Some limit) t = true) before
    /\ goes_on input before = true
    /\ ((loop_test start_time (Some limit) t = true
         /\ session_ends (input_left input before) t = true)
        \/ loop_test start_time (Some limit) t = false).
Proof.
  induction script as [|t script IH]; intros input Hlate; [inversion Hlate|].
  destruct (loop_test start_time (Some limit) t) eqn:Htest.
  - destruct (session_ends input t) eqn:Hend.
    + exists [], t, script. repeat split; try done. left. now split.
    + apply Exists_cons in Hlate as [Hnow|Hlater]; [congruence|].
      destruct (IH (input_after input t) Hlater)
        as (before & t' & after & -> & Htime & Hgo & Hcase).
      exists (t :: before), t', after. split; [reflexivity|].
      split; [now constructor|]. split; [|exact Hcase].
      cbn [goes_on]. now rewrite Hend, Hgo.
  - exists [], t, script. repeat split; try done. now right.
Qed.

End Through.

(** C2, as stated, fails: a read that raises an error of the system other
    than a reset connection (here errno 5, EIO) leaves the call through
    that error, with the socket still open: neither of the two outcomes. *)
Lemma docker_communicate_error_escapes :
  let script :=
    [ {| now := 1; sel := inr (true, true); rd := inl (OSError 5);
         wr := inr 0 |} ] in
  let answer :=
    docker_communicate sample_config sample_setup script None true (Some 10)
      Client.no_clients in
  answer.1.1 = Raised (OSError 5)
  /\ sock_closed answer.1.2 = false
  /\ ~ one_of_two_outcomes answer.1.1 answer.1.2.
Proof.
  cbv zeta. split; [reflexivity|]. split; [reflexivity|].
  intros [_ Hclosed]. vm_compute in Hclosed. discriminate.
Qed.

(** C2, amended. A call with a finite timeout never stops, kills or
    removes the container, and never both returns and raises.

    An error raised by attaching or by starting the container leaves the
    call as it is, and so does the error a round lets through (raised by
    [select], by a read, by a write, and not caught by the loop), when the
    rounds before it were in time and went on; the call has then not
    closed the socket.

    With the client and the socket there and the container started, the
    first round that does not go on decides. At a round whose test finds
    the deadline reached, the call closes the socket and raises
    [TimeoutError]. At a round in time that ends the session (end of file
    or reset connection on a read, broken pipe on a write of input left),
    the call closes the socket and returns the decoded buffer. So when no
    answer raises an error the loop does not catch and the clock reaches
    the deadline at the test of some round, the call ends in exactly one
    of these two ways, with the socket closed. *)
Theorem docker_communicate_outcomes (cfg : config) (env : setup)
    (script : list tick) (given : option bytes) (start_container : bool)
    (limit : Z) (cache : Client.clients) :
  let in_time t := loop_test (start_time env) (Some limit) t = true in
  let too_late t := loop_test (start_time env) (Some limit) t = false in
  exists oc st cache',
    docker_communicate cfg env script given start_container (Some limit) cache
    = (oc, st, cache')
    /\ Forall (fun c => stops_container c = false) (calls st)
    /\ ~ ((exists r, oc = Returned r) /\ oc = Raised TimeoutError)
    /\ (client env = inr tt ->
        forall e, attach_socket env = inl e ->
                  oc = Raised e /\ sock_closed st = false)
    /\ (attach env = inr tt -> start_container = true ->
        forall e, start env = inl e ->
                  oc = Raised e /\ sock_closed st = false)
    /\ (attach env = inr tt ->
        (start_container = true -> start env = inr tt) ->
        (forall before t after,
            script = before ++ t :: after ->
            Forall in_time before ->
            Forall (fun t => tolerated t = true) before ->
            goes_on given before = true ->
            (too_late t ->
             oc = Raised TimeoutError /\ sock_closed st = true)
            /\ (in_time t -> tolerated t = true ->
                session_ends (input_left given before) t = true ->
                exists r,
                  oc = Returned r
                  /\ demultiplex_docker_stream (stream_data st) = inr r
                  /\ sock_closed st = true)
            /\ (in_time t ->
                forall e, lets_through (input_left given before) t e ->
                          oc = Raised e /\ sock_closed st = false))
        /\ (Forall (fun t => tolerated t = true) script ->
            Exists too_late script ->
            one_of_two_outcomes oc st
            /\ exists before t after,
                script = before ++ t :: after
                /\ Forall in_time before
                /\ goes_on given before = true
                /\ ((in_time t
                     /\ session_ends (input_left given before) t = true)
                    \/ too_late t))).
Proof.
  intros in_time too_late.
  destruct (docker_communicate cfg env script given start_container
              (Some limit) cache) as [[oc st] cache'] eqn:Hrun.
  exists oc, st, cache'. split; [reflexivity|].
  set (st0 := {| stream_data := []; stdin := given; sock_closed := false;
                 calls := [] |}).
  set (st1 := record (SetBlocking false) (record AttachSocket st0)).
  set (st2 := if has_input st1 then st1 else record ShutdownWrite st1).
  set (st3 := if start_container then record ContainerStart st2 else st2).
  assert (Hquiet3 : Forall (fun c => stops_container c = false) (calls st3)
                    /\ Forall (fun c => stops_container c = false)
                         (calls (record ContainerStart st2))).
  { unfold st3, st2, st1, st0. destruct start_container, given as [[|b input]|];
      cbn; split; repeat constructor. }
  assert (Hopen3 : sock_closed st3 = false).
  { unfold st3, st2, st1. now destruct start_container, (has_input _). }
  assert (Hin3 : stdin st3 = given).
  { unfold st3, st2, st1. now destruct start_container, (has_input _). }
  split; [|split; [|split; [|split]]].
  - (* the calls *)
    revert Hrun. unfold docker_communicate.
    destruct (Client.get_docker_client_or_raise _ _ _ _ _ _)
      as [[e|docker_client] cache1]; [intros [= <- <- <-]; constructor|].
    destruct (attach_socket env) as [e|[]];
      [intros [= <- <- <-]; constructor|].
    fold st0 st1 st2 st3.
    destruct (if start_container then start env else inr tt) as [e|[]].
    + intros [= <- <- <-]. apply Hquiet3.
    + pose proof (communicate_loop_quiet (start_time env) (Some limit) script
                    st3 (proj1 Hquiet3)) as Hloop.
      destruct (communicate_loop _ _ _ _) as [oc' st'].
      intros [= <- <- <-]. exact Hloop.
  - intros [[r Hr] Hraise]. congruence.
  - intros Hclient e Hattach. revert Hrun. unfold docker_communicate.
    rewrite Hclient, get_docker_client_or_raise_built, Hattach.
    now intros [= <- <- <-].
  - intros Hattach -> e Hstart. apply attach_inv in Hattach as [Hc Ha].
    rewrite (docker_communicate_attached cfg env) in Hrun by assumption.
    cbv zeta in Hrun. rewrite Hstart in Hrun.
    injection Hrun as <- <- <-. split; [reflexivity|].
    cbn [sock_closed record]. now destruct (has_input _).
  - intros Hattach Hstart. apply attach_inv in Hattach as [Hc Ha].
    rewrite (docker_communicate_attached cfg env) in Hrun by assumption.
    cbv zeta in Hrun. fold st0 st1 st2 st3 in Hrun.
    assert (Hstarted : (if start_container then start env else inr tt) = inr tt).
    { destruct start_container; [now apply Hstart|reflexivity]. }
    rewrite Hstarted in Hrun.
    assert (Hdet : forall before t after,
              script = before ++ t :: after ->
              Forall in_time before ->
              Forall (fun t => tolerated t = true) before ->
              goes_on given before = true ->
              (too_late t ->
               oc = Raised TimeoutError /\ sock_closed st = true)
              /\ (in_time t -> tolerated t = true ->
                  session_ends (input_left given before) t = true ->
                  exists r,
                    oc = Returned r
                    /\ demultiplex_docker_stream (stream_data st) = inr r
                    /\ sock_closed st = true)
              /\ (in_time t ->
                  forall e, lets_through (input_left given before) t e ->
                            oc = Raised e /\ sock_closed st = false)).
    { intros before t after -> Htime Hok Hgo. rewrite <- Hin3 in Hgo |- *.
      destruct (communicate_loop_through (start_time env) (Some limit) before
                  st3 (t :: after) Htime Hok Hgo)
        as (st' & Hthrough & [Hsock _] & Hin & _).
      rewrite Hthrough in Hrun. cbn [communicate_loop] in Hrun.
      rewrite <- Hin. split; [|split].
      - intros Hlate. unfold too_late in Hlate. rewrite Hlate in Hrun.
        injection Hrun as <- <- <-. now split.
      - intros Hnow Hok_t Hend. unfold in_time in Hnow. rewrite Hnow in Hrun.
        destruct (loop_body_ends t st' Hok_t Hend) as [st'' Hbody].
        rewrite Hbody in Hrun. unfold finish in Hrun.
        destruct (demultiplex_returns (stream_data (close st'')))
          as (out & err & Hdecode).
        rewrite Hdecode in Hrun. injection Hrun as <- <- <-.
        exists (out, err). now repeat split.
      - intros Hnow e Hlets. unfold in_time in Hnow. rewrite Hnow in Hrun.
        destruct (loop_body_lets_through t st' e Hlets) as [st'' Hbody].
        pose proof (loop_body_round t st') as [[Hsock' _] _].
        rewrite Hbody in Hrun, Hsock'. cbn [state_of] in Hsock'.
        injection Hrun as <- <- <-. split; [reflexivity|]. congruence. }
    split; [exact Hdet|]. intros Hok Hlate.
    destruct (first_end (start_time env) limit script given Hlate)
      as (before & t & after & Hscript & Htime & Hgo & Hcase).
    assert (Hok' : Forall (fun t => tolerated t = true) before
                   /\ tolerated t = true).
    { rewrite Hscript in Hok. apply Forall_app in Hok as [Hb Ht].
      apply Forall_cons in Ht as [Ht _]. now split. }
    destruct Hok' as [Hok_b Hok_t].
    destruct (Hdet before t after Hscript Htime Hok_b Hgo)
      as (Hdeadline & Hreturn & _).
    split.
    + destruct Hcase as [[Hnow Hend]|Hthen].
      * destruct (Hreturn Hnow Hok_t Hend) as (r & -> & Hr & Hclosed).
        split; [left; eauto|exact Hclosed].
      * destruct (Hdeadline Hthen) as [-> Hclosed]. split; [now right|done].
    + exists before, t, after. repeat split; assumption.
Qed.

Lemma docker_communicate_outcomes_witness :
  (exists st cache',
      docker_communicate sample_config sample_setup sample_session
        (Some ["h"; "i"]%byte) true (Some 10) Client.no_clients
      = (Returned (["h"; "i"]%byte, []), st, cache')
      /\ sock_closed st = true)
  /\ (exists st cache',
      docker_communicate sample_config sample_setup sample_silence
        None true (Some 10) Client.no_clients
      = (Raised TimeoutError, st, cache')
      /\ sock_closed st = true).
Proof.
  split.
  - destruct (docker_communicate_outcomes sample_config sample_setup
                sample_session (Some ["h"; "i"]%byte) true 10 Client.no_clients)
      as (oc & st & cache' & Hrun & _ & _ & _ & _ & Hloop).
    destruct (Hloop eq_refl (fun _ => eq_refl)) as [Hdet _].
    destruct (Hdet [_] _ [_] eq_refl)
      as (_ & Hreturn & _); [repeat constructor..|reflexivity|].
    destruct (Hreturn eq_refl eq_refl eq_refl) as (r & -> & _ & Hclosed).
    exists st, cache'. split; [|exact Hclosed]. rewrite Hrun.
    vm_compute in Hrun. congruence.
  - destruct (docker_communicate_outcomes sample_config sample_setup
                sample_silence None true 10 Client.no_clients)
      as (oc & st & cache' & Hrun & _ & _ & _ & _ & Hloop).
    destruct (Hloop eq_refl (fun _ => eq_refl)) as [Hdet _].
    destruct (Hdet [_] _ [] eq_refl)
      as (Hdeadline & _); [repeat constructor..|reflexivity|].
    destruct (Hdeadline eq_refl) as [-> Hclosed].
    exists st, cache'. split; [|exact Hclosed]. rewrite Hrun.
    vm_compute in Hrun. congruence.
Defined.

(** * More on the codec *)

Section Streams.

Implicit Types (frames : list Wire.frame) (data tail : bytes).

(** The bytes of one frame, header first. *)
Lemma encode_cons f :
  exists b4 b5 b6 b7,
    Wire.encode f
    = Wire.selector f :: (Wire.reserved f).1.1 :: (Wire.reserved f).1.2
        :: (Wire.reserved f).2 :: b4 :: b5 :: b6 :: b7 :: Wire.payload f
    /\ (encodable f ->
        N.to_nat (Bytes.be32 b4 b5 b6 b7) = length (Wire.payload f)).
Proof.
  destruct f as [b0 [[r1 r2] r3] payload].
  eexists _, _, _, _. split; [reflexivity|].
  unfold encodable. cbn [Wire.payload]. intros Hlen.
  now rewrite be32_be32_bytes, Nat2N.id.
Qed.

Lemma payloads_of_cons s f frames :
  Wire.payloads_of s (f :: frames)
  = (if (Bytes.byte_val (Wire.selector f) =? s)%N then Wire.payload f else [])
      ++ Wire.payloads_of s frames.
Proof.
  unfold Wire.payloads_of. rewrite filter_cons.
  destruct (N.eqb_spec (Bytes.byte_val (Wire.selector f)) s);
    case_decide; try done.
Qed.

(** X1. Frames of any stream, followed by a fragment too short to be a
    header: the payloads of the frames of stream 1 and of stream 2 come
    out in order, the frames of every other stream and the fragment are
    dropped. *)
Theorem demultiplex_drops_other_streams frames tail :
  Forall encodable frames ->
  (length tail < 8)%nat ->
  demultiplex_docker_stream (concat (map Wire.encode frames) ++ tail)
  = inr (Wire.payloads_of 1 frames, Wire.payloads_of 2 frames).
Proof.
  intros Hframes Htail. induction Hframes as [|f frames Hf _ IH].
  - now apply demultiplex_short.
  - destruct (encode_cons f) as (b4 & b5 & b6 & b7 & Henc & Hlen).
    cbn [map concat]. rewrite Henc, <- !app_assoc. cbn [app].
    rewrite demultiplex_frame, (Hlen Hf).
    rewrite take_app_length, drop_app_length, IH, !payloads_of_cons.
    destruct (N.eqb_spec (Bytes.byte_val (Wire.selector f)) 1) as [->|];
      [reflexivity|].
    destruct (Bytes.byte_val (Wire.selector f) =? 2)%N; reflexivity.
Qed.

Lemma demultiplex_drops_other_streams_witness :
  let frames :=
    [ {| Wire.selector := "000"; Wire.reserved := ("000", "000", "000");
         Wire.payload := ["i"; "n"] |};
      {| Wire.selector := "002"; Wire.reserved := ("007", "007", "007");
         Wire.payload := ["E"] |};
      {| Wire.selector := "001"; Wire.reserved := ("000", "000", "000");
         Wire.payload := [] |};
      {| Wire.selector := "001"; Wire.reserved := ("000", "000", "000");
         Wire.payload := ["O"] |} ]%byte in
  Forall encodable frames
  /\ demultiplex_docker_stream
       (concat (map Wire.encode frames) ++ ["001"; "000"; "000"]%byte)
     = inr (["O"]%byte, ["E"]%byte).
Proof.
  intros frames.
  assert (Hok : Forall encodable frames).
  { repeat constructor; unfold encodable; cbn; lia. }
  split; [exact Hok|].
  apply (demultiplex_drops_other_streams frames ["001"; "000"; "000"]%byte Hok).
  simpl. lia.
Defined.

(** X2. Decoding does not invent bytes: the two outputs together are never
    longer than the data, and when anything comes out at all they are
    shorter than the data by a header at least. *)
Theorem demultiplex_output_bound data :
  exists out err,
    demultiplex_docker_stream data = inr (out, err)
    /\ (length out + length err <= length data)%nat
    /\ (out ++ err <> [] -> (length out + length err + 8 <= length data)%nat).
Proof.
  remember (length data) as size eqn:Hsize. revert data Hsize.
  induction size as [size IH] using lt_wf_ind. intros data ->.
  destruct (Nat.lt_ge_cases (length data) 8) as [Hshort|Hlong].
  - exists [], []. rewrite demultiplex_short by assumption.
    split; [reflexivity|]. split; [simpl; lia|done].
  - destruct data as [|b0 [|r1 [|r2 [|r3 [|b4 [|b5 [|b6 [|b7 rest]]]]]]]];
      simpl in Hlong; try lia.
    rewrite demultiplex_frame.
    set (n := N.to_nat (Bytes.be32 b4 b5 b6 b7)).
    destruct (IH (length (drop n rest))) with (data := drop n rest)
      as (out & err & -> & Hbound & _); [|reflexivity|].
    { rewrite length_drop. simpl. lia. }
    eexists _, _. split; [reflexivity|].
    assert (Hsplit : (length (take n rest) + length (drop n rest)
                      = length rest)%nat).
    { rewrite <- length_app, take_drop. reflexivity. }
    assert (length out + length err + length (take n rest) + 8
            <= length (b0 :: r1 :: r2 :: r3 :: b4 :: b5 :: b6 :: b7 :: rest))%nat
      by (cbn [length]; lia).
    destruct (N.eqb_spec (Bytes.byte_val b0) 1) as [->|_];
      [cbn [N.eqb Pos.eqb]|destruct (Bytes.byte_val b0 =? 2)%N];
      rewrite ?length_app; split; intros; lia.
Qed.

(** X3. A stream of frames cut off anywhere, inside a header or inside a
    payload, still decodes, and what comes out is the beginning of what
    the whole stream gives on each side. *)
Theorem demultiplex_cut_stream frames (n : nat) :
  Forall encodable frames ->
  exists out err,
    demultiplex_docker_stream (take n (concat (map Wire.encode frames)))
    = inr (out, err)
    /\ out `prefix_of` Wire.payloads_of 1 frames
    /\ err `prefix_of` Wire.payloads_of 2 frames.
Proof.
  intros Hframes. revert n.
  induction Hframes as [|f frames Hf _ IH]; intros n.
  - cbn [map concat]. rewrite take_nil. exists [], []. rewrite demultiplex_short by (simpl; lia).
    split; [reflexivity|]. split; apply prefix_nil.
  - destruct (encode_cons f) as (b4 & b5 & b6 & b7 & Henc & Hlen).
    specialize (Hlen Hf). cbn [map concat]. rewrite Henc. cbn [app].
    rewrite !payloads_of_cons.
    destruct (Nat.lt_ge_cases n 8) as [Hshort|Hlong].
    + exists [], []. rewrite demultiplex_short.
      * split; [reflexivity|]. split; apply prefix_nil.
      * rewrite length_take. lia.
    + destruct n as [|[|[|[|[|[|[|[|m]]]]]]]]; try lia. cbn [take].
      rewrite demultiplex_frame, Hlen.
      set (payload := Wire.payload f) in *.
      destruct (Nat.le_gt_cases m (length payload)) as [Hin|Hout].
      * (* the cut falls inside the payload *)
        rewrite take_app_le by exact Hin.
        assert (Hcut : (length (take m payload) <= length payload)%nat)
          by (rewrite length_take; lia).
        rewrite (take_ge (take m payload)), (drop_ge (take m payload))
          by exact Hcut.
        rewrite demultiplex_short by (simpl; lia).
        eexists _, _. split; [reflexivity|].
        destruct (Bytes.byte_val (Wire.selector f) =? 1)%N,
                 (Bytes.byte_val (Wire.selector f) =? 2)%N;
          rewrite ?app_nil_r; split;
          try apply prefix_nil; apply prefix_app_r, prefix_take.
      * (* the cut falls behind the frame *)
        rewrite take_app_ge by lia.
        rewrite take_app_length, drop_app_length.
        destruct (IH (m - length payload)%nat) as (out & err & -> & Hout' & Herr').
        eexists _, _. split; [reflexivity|].
        destruct (Bytes.byte_val (Wire.selector f) =? 1)%N,
                 (Bytes.byte_val (Wire.selector f) =? 2)%N;
          split; try assumption; now apply prefix_app.
Qed.

Lemma demultiplex_cut_stream_witness :
  let frames :=
    [ {| Wire.selector := "001"; Wire.reserved := ("000", "000", "000");
         Wire.payload := ["A"; "B"; "C"] |};
      {| Wire.selector := "002"; Wire.reserved := ("000", "000", "000");
         Wire.payload := ["D"] |} ]%byte in
  Forall encodable frames
  /\ demultiplex_docker_stream (take 10 (concat (map Wire.encode frames)))
     = inr (["A"; "B"]%byte, []).
Proof.
  intros frames.
  assert (Hok : Forall encodable frames).
  { repeat constructor; unfold encodable; cbn; lia. }
  split; [exact Hok|].
  destruct (demultiplex_cut_stream frames 10 Hok) as (out & err & Hrun & _).
  rewrite Hrun. vm_compute in Hrun. congruence.
Defined.

End Streams.

(** * More on the I/O pump *)

(** X4. What [docker_communicate] returns is the decoding of the chunks it
    read, joined in the order of the rounds. The rounds are those the loop
    went through: the rounds in time that went on, then the round that
    ended the session. Only the bytes count, not the way the socket cut
    them into reads. *)
Theorem docker_communicate_joins_chunks (cfg : config) (env : setup)
    (before : list tick) (t : tick) (after : list tick)
    (given : option bytes) (start_container : bool) (timeout : option Z)
    (cache : Client.clients) :
  attach env = inr tt ->
  (start_container = true -> start env = inr tt) ->
  Forall (fun t => loop_test (start_time env) timeout t = true)
    (before ++ [t]) ->
  Forall (fun t => tolerated t = true) (before ++ [t]) ->
  goes_on given before = true ->
  session_ends (input_left given before) t = true ->
  exists r st cache',
    docker_communicate cfg env (before ++ t :: after) given start_container
      timeout cache
    = (Returned r, st, cache')
    /\ stream_data st = concat (map chunk_of (before ++ [t]))
    /\ demultiplex_docker_stream (concat (map chunk_of (before ++ [t])))
       = inr r.
Proof.
  intros Hattach Hstart Htime Hok Hgo Hend.
  apply attach_inv in Hattach as [Hc Ha].
  rewrite (docker_communicate_attached cfg env) by assumption. cbv zeta.
  assert (Hstarted : (if start_container then start env else inr tt) = inr tt).
  { destruct start_container; [now apply Hstart|reflexivity]. }
  rewrite Hstarted.
  match goal with
  | |- context [communicate_loop _ _ _ ?s] => set (st3 := s)
  end.
  assert (H3 : stdin st3 = given /\ stream_data st3 = []).
  { unfold st3. now destruct start_container, (has_input _). }
  destruct H3 as [Hin3 Hdata3].
  apply Forall_app in Htime as [Htime Htime_t].
  apply Forall_cons in Htime_t as [Htime_t _].
  apply Forall_app in Hok as [Hok Hok_t].
  apply Forall_cons in Hok_t as [Hok_t _].
  rewrite <- Hin3 in Hgo, Hend.
  destruct (communicate_loop_through (start_time env) timeout before st3
              (t :: after) Htime Hok Hgo)
    as (st' & -> & _ & Hin & Hdata & _).
  cbn [communicate_loop]. rewrite Htime_t. rewrite <- Hin in Hend.
  destruct (loop_body_ends t st' Hok_t Hend) as [st'' Hbody].
  pose proof (loop_body_stream t st') as Hchunk.
  rewrite Hbody in Hchunk |- *. cbn [state_of] in Hchunk.
  unfold finish.
  assert (Hall : stream_data (close st'')
                 = concat (map chunk_of (before ++ [t]))).
  { cbn [stream_data close]. rewrite Hchunk, Hdata, Hdata3.
    rewrite map_app, concat_app. cbn [map concat app].
    now rewrite app_nil_r. }
  destruct (demultiplex_returns (stream_data (close st'')))
    as (out & err & Hdecode).
  rewrite Hdecode. eexists _, _, _. split; [reflexivity|].
  split; [exact Hall|]. now rewrite <- Hall.
Qed.

Lemma docker_communicate_joins_chunks_witness :
  exists st cache',
    docker_communicate sample_config sample_setup sample_split_session
      None true (Some 10) Client.no_clients
    = (Returned (["h"; "i"]%byte, []), st, cache')
    /\ stream_data st = concat (map chunk_of sample_split_session).
Proof.
  destruct (docker_communicate_joins_chunks sample_config sample_setup
              (take 4 sample_split_session)
              {| now := 5; sel := inr (true, false); rd := inr None;
                 wr := inr 0 |}
              [] None true (Some 10) Client.no_clients)
    as (r & st & cache' & Hrun & Hdata & Hdecode).
  - reflexivity.
  - reflexivity.
  - repeat constructor.
  - repeat constructor.
  - reflexivity.
  - reflexivity.
  - exists st, cache'. split; [|exact Hdata].
    assert (r = (["h"; "i"]%byte, [])) as <-; [|exact Hrun].
    vm_compute in Hdecode. congruence.
Defined.

(** * The write half of the socket *)

Section WriteHalf.

Implicit Types (t : tick) (st : pump) (script : list tick) (cs : list call).

Lemma write_half_snoc cs c :
  write_half (cs ++ [c]) = half_step (write_half cs) c.
Proof. unfold write_half. now rewrite fold_left_app. Qed.

Lemma shutdowns_snoc cs c :
  shutdowns (cs ++ [c])
  = (shutdowns cs + if decide (c = ShutdownWrite) then 1 else 0)%nat.
Proof.
  unfold shutdowns. rewrite filter_app, length_app, filter_cons, filter_nil.
  now case_decide.
Qed.

(** What [write_half] says in terms of the calls themselves. *)
Lemma write_half_discipline cs half :
  write_half cs = Some half ->
  shutdowns cs = (if half then 1 else 0)%nat
  /\ forall before after,
      cs = before ++ ShutdownWrite :: after ->
      forall data, SocketWrite data ∉ after.
Proof.
  revert half. induction cs as [|c cs IH] using rev_ind; intros half Hhalf.
  { injection Hhalf as <-. split; [reflexivity|].
    intros before after Hcs. now destruct before. }
  rewrite write_half_snoc in Hhalf. rewrite shutdowns_snoc.
  destruct (write_half cs) as [[]|] eqn:Hcs; [| |destruct c; discriminate].
  - (* already shut down: [c] is neither a shutdown nor a write *)
    destruct (IH true eq_refl) as [Hcount Horder].
    assert (Hc : c <> ShutdownWrite /\ forall data, c <> SocketWrite data).
    { destruct c; try discriminate; split; congruence. }
    assert (half = true) as -> by (destruct c; cbn in Hhalf; congruence).
    destruct Hc as [Hshut Hwrite]. rewrite decide_False by exact Hshut.
    split; [lia|]. intros before after Heq data Hin.
    destruct after as [|c' after _] using rev_ind.
    { now apply elem_of_nil in Hin. }
    rewrite app_comm_cons, app_assoc in Heq.
    apply app_inj_tail in Heq as [-> ->].
    apply elem_of_app in Hin as [Hin|Hin].
    + now apply (Horder before after eq_refl data).
    + apply list_elem_of_singleton in Hin. now apply (Hwrite data).
  - (* still open *)
    destruct (IH false eq_refl) as [Hcount Horder].
    assert (Hnone : forall before after, cs <> before ++ ShutdownWrite :: after).
    { intros before after ->. unfold shutdowns in Hcount.
      rewrite filter_app, filter_cons, decide_True, length_app in Hcount by done.
      cbn [length] in Hcount. lia. }
    destruct (decide (c = ShutdownWrite)) as [->|Hc].
    + injection Hhalf as <-. split; [lia|].
      intros before after Heq data Hin.
      destruct after as [|c' after _] using rev_ind.
      { now apply elem_of_nil in Hin. }
      rewrite app_comm_cons, app_assoc in Heq.
      apply app_inj_tail in Heq as [Heq _]. now apply Hnone in Heq.
    + assert (half = false) as -> by (destruct c; cbn in Hhalf; congruence).
      split; [lia|]. intros before after Heq data Hin.
      destruct after as [|c' after _] using rev_ind.
      { apply app_inj_tail in Heq as [_ Heq]. congruence. }
      rewrite app_comm_cons, app_assoc in Heq.
      apply app_inj_tail in Heq as [Heq _]. now apply Hnone in Heq.
Qed.

Lemma drained_record c st :
  c <> ShutdownWrite -> (forall data, c <> SocketWrite data) ->
  half_closed_when_drained st -> half_closed_when_drained (record c st).
Proof.
  unfold half_closed_when_drained. intros Hshut Hwrite Hst.
  cbn [calls record]. rewrite write_half_snoc, Hst.
  change (has_input (record c st)) with (has_input st).
  destruct c, (has_input st); try reflexivity; congruence.
Qed.

Lemma drained_read_part t st :
  half_closed_when_drained st ->
  half_closed_when_drained (state_of (read_part t st))
  /\ has_input (state_of (read_part t st)) = has_input st.
Proof.
  intros Hst. unfold read_part.
  assert (half_closed_when_drained (record SocketRead st))
    by now apply drained_record.
  destruct (_socket_read (rd t)) as [e|[data|]];
    [destruct (is_ConnectionResetError e)| |]; cbn [state_of]; auto.
Qed.

Lemma drained_write_part t st :
  has_input st = true ->
  half_closed_when_drained st ->
  half_closed_when_drained (state_of (write_part t st)).
Proof.
  unfold half_closed_when_drained. intros Hin Hst. unfold write_part.
  set (st1 := record (SocketWrite _) st).
  assert (Hst1 : write_half (calls st1) = Some false).
  { unfold st1. cbn [calls record]. now rewrite write_half_snoc, Hst, Hin. }
  destruct (_socket_write (wr t)) as [e|written];
    [destruct (is_BrokenPipeError e); cbn [state_of];
     change (has_input st1) with (has_input st); now rewrite Hin|].
  cbn [state_of].
  set (st2 := {| stream_data := _ |}).
  change (calls st2) with (calls st1) in *.
  destruct (has_input st2) eqn:Hleft.
  - now rewrite Hleft.
  - cbn [calls record]. change (calls st2) with (calls st1).
    rewrite write_half_snoc, Hst1.
    change (has_input (record ShutdownWrite st2)) with (has_input st2).
    now rewrite Hleft.
Qed.

Lemma drained_loop_body t st :
  half_closed_when_drained st ->
  half_closed_when_drained (state_of (loop_body t st)).
Proof.
  intros Hst. unfold loop_body.
  destruct (sel t) as [e|[read_ready write_ready]];
    [now apply drained_record|].
  set (st0 := record Select st).
  assert (H0 : half_closed_when_drained st0) by now apply drained_record.
  set (is_io_active := read_ready || write_ready && has_input st0).
  clearbody st0 is_io_active.
  set (r1 := if read_ready then read_part t st0 else Continue st0).
  assert (H1 : half_closed_when_drained (state_of r1)).
  { unfold r1. destruct read_ready; [now apply drained_read_part|exact H0]. }
  clearbody r1. destruct r1 as [st1|st1|e st1]; cbn [state_of] in H1 |- *;
    [|exact H1..].
  set (r2 := if write_ready && has_input st1 then write_part t st1
             else Continue st1).
  assert (H2 : half_closed_when_drained (state_of r2)).
  { unfold r2. destruct (write_ready && has_input st1) eqn:Hw; [|exact H1].
    apply andb_prop in Hw as [_ Hw]. now apply drained_write_part. }
  clearbody r2. destruct r2 as [st2|st2|e st2]; cbn [state_of] in H2 |- *;
    [|exact H2..].
  destruct (negb is_io_active); [now apply drained_record|exact H2].
Qed.

Lemma drained_communicate_loop start_time timeout script : forall st,
  half_closed_when_drained st ->
  half_closed_when_drained
    (communicate_loop start_time timeout script st).2.
Proof.
  induction script as [|t script IH]; intros st Hst; [exact Hst|].
  cbn [communicate_loop].
  destruct (loop_test start_time timeout t);
    [|now apply (drained_record SocketClose)].
  pose proof (drained_loop_body t st Hst) as Hbody.
  destruct (loop_body t st) as [st1|st1|e st1]; cbn [state_of] in Hbody.
  - now apply IH.
  - unfold finish. destruct (demultiplex_docker_stream _);
      now apply (drained_record SocketClose).
  - exact Hbody.
Qed.

End WriteHalf.

(** X5. In every call, however it ends, the write half of the socket is
    shut down at most once and nothing is written after the shutdown; once
    the socket is attached, it has been shut down exactly when no input is
    left to send (none was given, or the last of it was accepted). *)
Theorem docker_communicate_half_close (cfg : config) (env : setup)
    (script : list tick) (stdin : option bytes) (start_container : bool)
    (timeout : option Z) (cache : Client.clients) :
  let st :=
    (docker_communicate cfg env script stdin start_container timeout cache).1.2
  in
  (shutdowns (calls st) <= 1)%nat
  /\ (forall before after,
        calls st = before ++ ShutdownWrite :: after ->
        forall data, SocketWrite data ∉ after)
  /\ (attach env = inr tt ->
      (shutdowns (calls st) = 1%nat <-> has_input st = false)).
Proof.
  cbv zeta. unfold docker_communicate.
  destruct (Client.get_docker_client_or_raise _ _ _ _ _ cache)
    as [[e|docker_client] cache1] eqn:Hget.
  { cbn. split; [lia|]. split; [intros before after Heq; now destruct before|].
    intros Hattach. apply attach_inv in Hattach as [Hc _].
    rewrite Hc, get_docker_client_or_raise_built in Hget. discriminate. }
  destruct (attach_socket env) as [e|[]] eqn:Ha.
  { cbn. split; [lia|]. split; [intros before after Heq; now destruct before|].
    intros Hattach. apply attach_inv in Hattach as [_ Ha']. congruence. }
  set (st0 := {| stream_data := []; stdin := stdin; sock_closed := false;
                 calls := [] |}).
  set (st1 := record (SetBlocking false) (record AttachSocket st0)).
  set (st2 := if has_input st1 then st1 else record ShutdownWrite st1).
  assert (H2 : half_closed_when_drained st2).
  { unfold st2, st1, st0, half_closed_when_drained.
    destruct stdin as [[|b input]|]; reflexivity. }
  assert (Hfinal : forall st, half_closed_when_drained st ->
            (shutdowns (calls st) <= 1)%nat
            /\ (forall before after,
                  calls st = before ++ ShutdownWrite :: after ->
                  forall data, SocketWrite data ∉ after)
            /\ (attach env = inr tt ->
                (shutdowns (calls st) = 1%nat <-> has_input st = false))).
  { intros st Hst. destruct (write_half_discipline _ _ Hst) as [Hcount Horder].
    rewrite Hcount. destruct (has_input st); cbn [negb];
      (split; [lia|]); (split; [exact Horder|]); intros _; split; congruence. }
  destruct (if start_container then start env else inr tt) as [e|[]].
  - cbn [fst snd]. apply Hfinal. now apply drained_record.
  - cbn [fst snd]. apply Hfinal. apply drained_communicate_loop.
    destruct start_container; [now apply drained_record|exact H2].
Qed.

(** * The input *)

Section Input.

Implicit Types (t : tick) (st : pump) (script : list tick) (input : bytes).

Lemma slice_from_zero input : Bytes.slice_from input 0 = input.
Proof.
  unfold Bytes.slice_from. rewrite slice_nonneg by (pose proof (len_nonneg input); lia).
  rewrite Z.sub_0_r. cbn [Z.to_nat drop]. apply take_ge.
  unfold Bytes.len. lia.
Qed.

(** What the rounds take off the input, and what they leave, make up the
    input. *)
Lemma all_taken_input_left rounds : forall given : option bytes,
  all_taken given rounds ++ default [] (input_left given rounds)
  = default [] given.
Proof.
  induction rounds as [|t rounds IH]; intros given.
  { cbn. reflexivity. }
  cbn [all_taken input_left fold_left]. rewrite <- app_assoc.
  fold (input_left (input_after given t) rounds). rewrite IH.
  apply taken_input_after.
Qed.

End Input.

(** X6. The input is sent front to back. As long as the loop goes on,
    whatever counts the writes report: every round that writes offers all
    of the input that is left at that time, what the socket accepted is
    taken off the front, and the pieces taken so far, joined in order and
    followed by what is left, are the input given. Nothing is offered again
    once it was accepted, and nothing is skipped. *)
Theorem docker_communicate_sends_in_order (cfg : config) (env : setup)
    (script : list tick) (given : option bytes) (start_container : bool)
    (timeout : option Z) (cache : Client.clients) :
  attach env = inr tt ->
  (start_container = true -> start env = inr tt) ->
  Forall (fun t => loop_test (start_time env) timeout t = true) script ->
  Forall (fun t => tolerated t = true) script ->
  goes_on given script = true ->
  exists st cache',
    docker_communicate cfg env script given start_container timeout cache
    = (Waiting, st, cache')
    /\ writes (calls st) = offers given script
    /\ stdin st = input_left given script
    /\ all_taken given script ++ default [] (stdin st) = default [] given.
Proof.
  intros Hattach Hstart Htime Hok Hgo.
  apply attach_inv in Hattach as [Hc Ha].
  rewrite (docker_communicate_attached cfg env) by assumption. cbv zeta.
  assert (Hstarted : (if start_container then start env else inr tt) = inr tt).
  { destruct start_container; [now apply Hstart|reflexivity]. }
  rewrite Hstarted.
  match goal with
  | |- context [communicate_loop _ _ _ ?s] => set (st3 := s)
  end.
  assert (H3 : stdin st3 = given /\ writes (calls st3) = []).
  { unfold st3. now destruct start_container, given as [[|b input]|]. }
  destruct H3 as [Hin3 Hw3]. rewrite <- Hin3 in Hgo.
  destruct (communicate_loop_through (start_time env) timeout script st3 []
              Htime Hok Hgo)
    as (st' & Hrun & _ & Hin & _ & Hw).
  rewrite app_nil_r in Hrun. rewrite Hrun. cbn [communicate_loop].
  rewrite Hin3 in Hin, Hw. rewrite Hw3 in Hw.
  eexists st', _. split; [reflexivity|]. split; [exact Hw|].
  split; [exact Hin|]. rewrite Hin. apply all_taken_input_left.
Qed.

Lemma docker_communicate_sends_in_order_witness :
  let script :=
    [ {| now := 1; sel := inr (false, true); rd := inr None; wr := inr 1 |};
      {| now := 2; sel := inr (false, true); rd := inr None;
         wr := inl (OSError EWOULDBLOCK) |};
      {| now := 3; sel := inr (false, false); rd := inr None; wr := inr 0 |};
      {| now := 4; sel := inr (false, true); rd := inr None; wr := inr 2 |};
      {| now := 5; sel := inr (false, true); rd := inr None; wr := inr 0 |} ]
  in
  exists st cache',
    docker_communicate sample_config sample_setup script
      (Some ["a"; "b"; "c"]%byte) true None Client.no_clients
    = (Waiting, st, cache')
    /\ writes (calls st)
       = [ ["a"; "b"; "c"]; ["b"; "c"]; ["b"; "c"] ]%byte
    /\ stdin st = Some [].
Proof.
  intros script.
  destruct (docker_communicate_sends_in_order sample_config sample_setup
              script (Some ["a"; "b"; "c"]%byte) true None Client.no_clients)
    as (st & cache' & Hrun & Hwrites & Hleft & _).
  - reflexivity.
  - reflexivity.
  - repeat constructor.
  - repeat constructor.
  - reflexivity.
  - exists st, cache'. split; [exact Hrun|]. split; [exact Hwrites|exact Hleft].
Defined.

(** X7. What a write does with an error of the system, when there is input
    to send: an interrupted call, a deadlock or a socket not ready counts
    as nothing written, the loop goes on with the input untouched and the
    write half open; a broken pipe ends the session; any other [errno]
    leaves the call as that error. *)
Theorem write_part_errno (t : tick) (st : pump) (input : bytes) (errno : Z) :
  stdin st = Some input -> input <> [] ->
  wr t = inl (OSError errno) ->
  match write_part t st with
  | Continue st' =>
      errno ∈ ERRNO_RECOVERABLE
      /\ stdin st' = Some input
      /\ calls st' = calls st ++ [SocketWrite input]
  | Break st' => errno = EPIPE \/ errno = ESHUTDOWN
  | Propagate e _ =>
      e = OSError errno
      /\ (errno ∉ ERRNO_RECOVERABLE) /\ errno <> EPIPE /\ errno <> ESHUTDOWN
  end.
Proof.
  intros Hstdin Hinput Hwr. unfold write_part, _socket_write.
  rewrite Hwr, Hstdin. cbn [default].
  destruct (decide (errno ∈ ERRNO_RECOVERABLE)) as [Hrec|Hrec].
  - rewrite bool_decide_eq_true_2 by exact Hrec.
    rewrite slice_from_zero.
    match goal with
    | |- context [has_input ?s] =>
        assert (has_input s = true) as -> by (destruct input; [done|reflexivity])
    end.
    cbn [stdin calls record]. repeat split; done.
  - rewrite bool_decide_eq_false_2 by exact Hrec.
    cbn [is_BrokenPipeError].
    destruct (Z.eqb_spec errno EPIPE) as [->|Hpipe]; cbn [orb]; [now left|].
    destruct (Z.eqb_spec errno ESHUTDOWN) as [->|Hshut]; [now right|].
    repeat split; done.
Qed.

Lemma write_part_errno_witness :
  let st := {| stream_data := []; stdin := Some ["h"; "i"]%byte;
               sock_closed := false; calls := [Select] |} in
  let t := {| now := 1; sel := inr (false, true); rd := inr None;
              wr := inl (OSError EWOULDBLOCK) |} in
  exists st', write_part t st = Continue st'
              /\ stdin st' = Some ["h"; "i"]%byte.
Proof.
  intros st t.
  pose proof (write_part_errno t st ["h"; "i"]%byte EWOULDBLOCK
                eq_refl ltac:(discriminate) eq_refl) as Hcase.
  destruct (write_part t st) as [st'|st'|e st'] eqn:Hrun.
  - exists st'. split; [reflexivity|apply Hcase].
  - vm_compute in Hrun. discriminate.
  - vm_compute in Hrun. discriminate.
Defined.

(** * Without a deadline *)

Lemma communicate_loop_unlimited start_time script : forall st,
  Forall (fun t => tolerated t = true) script ->
  exists oc st',
    communicate_loop start_time None script st = (oc, st')
    /\ ((oc = Waiting /\ extends st st')
        \/ (exists r last t,
              oc = Returned r /\ extends st last /\ st' = close last
              /\ t ∈ script /\ ends_session t)).
Proof.
  induction script as [|t script IH]; intros st Hok.
  { exists Waiting, st. split; [reflexivity|]. left.
    split; [reflexivity|apply extends_refl]. }
  apply Forall_cons in Hok as [Hok_t Hok]. cbn [communicate_loop loop_test].
  pose proof (loop_body_round t st) as [Hext Hcase].
  destruct (loop_body t st) as [st1|st1|e st1]; cbn [state_of] in Hext.
  - destruct (IH st1 Hok) as (oc & st' & Hrun & Hend).
    exists oc, st'. split; [exact Hrun|].
    destruct Hend as [[-> Hext']|(r & last & t' & -> & Hlast & -> & Hin & Hends)].
    + left. split; [reflexivity|]. now apply (extends_trans st st1).
    + right. exists r, last, t'. split; [reflexivity|].
      split; [now apply (extends_trans st st1)|]. split; [reflexivity|].
      split; [apply elem_of_cons; now right|exact Hends].
  - destruct (demultiplex_returns (stream_data (close st1)))
      as (out & err & Hdecode).
    exists (Returned (out, err)), (close st1).
    split; [unfold finish; now rewrite Hdecode|].
    right. exists (out, err), st1, t. split; [reflexivity|].
    split; [exact Hext|]. split; [reflexivity|].
    split; [apply elem_of_cons; now left|exact Hcase].
  - congruence.
Qed.

(** X8. Without a timeout, and with answers that raise nothing the loop
    does not catch, the call never raises: as long as no round ends the
    session it stays in the loop with the socket open, and it returns,
    with the socket closed, only at a round that ends the session. *)
Theorem docker_communicate_without_timeout (cfg : config) (env : setup)
    (script : list tick) (stdin : option bytes) (start_container : bool)
    (cache : Client.clients) :
  attach env = inr tt ->
  (start_container = true -> start env = inr tt) ->
  Forall (fun t => tolerated t = true) script ->
  exists oc st cache',
    docker_communicate cfg env script stdin start_container None cache
    = (oc, st, cache')
    /\ ((oc = Waiting /\ sock_closed st = false)
        \/ (exists r t, oc = Returned r /\ sock_closed st = true
                        /\ t ∈ script /\ ends_session t)).
Proof.
  intros Hattach Hstart Hok. apply attach_inv in Hattach as [Hc Ha].
  rewrite (docker_communicate_attached cfg env) by assumption. cbv zeta.
  assert (Hstarted : (if start_container then start env else inr tt) = inr tt).
  { destruct start_container; [now apply Hstart|reflexivity]. }
  rewrite Hstarted.
  match goal with
  | |- context [communicate_loop _ _ _ ?s] => set (st3 := s)
  end.
  assert (Hopen : sock_closed st3 = false).
  { unfold st3. now repeat case_match. }
  destruct (communicate_loop_unlimited (start_time env) script st3 Hok)
    as (oc & st' & Hrun & Hend).
  rewrite Hrun. eexists oc, st', _. split; [reflexivity|].
  destruct Hend as [[-> [Hsock _]]|(r & last & t & -> & _ & -> & Hin & Hends)].
  - left. split; [reflexivity|congruence].
  - right. exists r, t. repeat split; done.
Qed.

Lemma docker_communicate_without_timeout_witness :
  (exists st cache',
      docker_communicate sample_config sample_setup (take 1 sample_silence)
        None true None Client.no_clients = (Waiting, st, cache')
      /\ sock_closed st = false)
  /\ (exists st cache',
      docker_communicate sample_config sample_setup sample_split_session
        None true None Client.no_clients
      = (Returned (["h"; "i"]%byte, []), st, cache')
      /\ sock_closed st = true).
Proof.
  split.
  - destruct (docker_communicate_without_timeout sample_config sample_setup
                (take 1 sample_silence) None true Client.no_clients)
      as (oc & st & cache' & Hrun & Hend).
    + reflexivity.
    + reflexivity.
    + repeat constructor.
    + exists st, cache'. rewrite Hrun.
      destruct Hend as [[-> Hopen]|(r & t & -> & _)].
      * split; [reflexivity|exact Hopen].
      * vm_compute in Hrun. discriminate.
  - destruct (docker_communicate_without_timeout sample_config sample_setup
                sample_split_session None true Client.no_clients)
      as (oc & st & cache' & Hrun & Hend).
    + reflexivity.
    + reflexivity.
    + repeat constructor.
    + exists st, cache'. rewrite Hrun.
      destruct Hend as [[-> Hopen]|(r & t & -> & Hclosed & _)].
      * vm_compute in Hrun. discriminate.
      * split; [|exact Hclosed]. vm_compute in Hrun. congruence.
Defined.

(** * The pump and the client cache *)

(** X9. [docker_communicate] builds a client at most once. Its key in the
    cache is the default of [retry_read] with the retry list (404, 500).
    If that key is not cached and the client cannot be built, the call
    raises what the building raised, before there is a socket, and caches
    nothing. Otherwise the key is cached when the call is over, however it
    ends, and no other key was touched; from then on a call builds no
    client: what building would answer makes no difference to it, and it
    leaves the cache as it is. *)
Theorem docker_communicate_reuses_client (cfg : config) (env env' : setup)
    (script script' : list tick) (given given' : option bytes)
    (start_container start_container' : bool) (timeout timeout' : option Z)
    (cache : Client.clients) :
  let key := (default_retry_read env, [404; 500]) in
  let first :=
    docker_communicate cfg env script given start_container timeout cache in
  (Client._DOCKER_CLIENTS cache !! key = None ->
   forall e, client env = inl e ->
     first
     = (Raised e,
        {| stream_data := []; stdin := given; sock_closed := false;
           calls := [] |},
        cache))
  /\ (is_Some (Client._DOCKER_CLIENTS cache !! key) \/ client env = inr tt ->
      is_Some (Client._DOCKER_CLIENTS first.2 !! key)
      /\ (forall key', key' <> key ->
            Client._DOCKER_CLIENTS first.2 !! key'
            = Client._DOCKER_CLIENTS cache !! key')
      /\ (is_Some (Client._DOCKER_CLIENTS cache !! key) -> first.2 = cache)
      /\ (default_retry_read env' = default_retry_read env ->
          forall answer,
            docker_communicate cfg (with_client answer env') script' given'
              start_container' timeout' first.2
            = docker_communicate cfg env' script' given' start_container'
                timeout' first.2
            /\ (docker_communicate cfg env' script' given' start_container'
                  timeout' first.2).2
               = first.2)).
Proof.
  intros key first.
  assert (Hcache : forall env script given start_container timeout cache c,
            Client.get_docker_client_or_raise (client env) cfg None
              (default_retry_read env) [404; 500] cache
            = (inr c,
               (Client.get_docker_client cfg None (default_retry_read env)
                  [404; 500] cache).2) ->
            (docker_communicate cfg env script given start_container timeout
               cache).2
            = (Client.get_docker_client cfg None (default_retry_read env)
                 [404; 500] cache).2).
  { clear. intros env script given start_container timeout cache c Hget.
    unfold docker_communicate. rewrite Hget. now repeat case_match. }
  assert (Hhit : forall env script given start_container timeout cache c,
            Client._DOCKER_CLIENTS cache
              !! (default_retry_read env, [404; 500]) = Some c ->
            forall answer,
              docker_communicate cfg (with_client answer env) script given
                start_container timeout cache
              = docker_communicate cfg env script given start_container
                  timeout cache
              /\ (docker_communicate cfg env script given start_container
                    timeout cache).2 = cache).
  { clear. intros env script given start_container timeout cache c Hkey answer.
    unfold docker_communicate, Client.get_docker_client_or_raise,
      Client.get_docker_client.
    cbn [default_retry_read with_client client attach_socket start start_time].
    rewrite Hkey. split; [reflexivity|]. now repeat case_match. }
  split.
  - intros Hmiss e Hclient. unfold first, docker_communicate,
      Client.get_docker_client_or_raise.
    fold key. now rewrite Hmiss, Hclient.
  - intros Hhave.
    pose proof (get_docker_client_caches cfg cache None
                  (default_retry_read env) [404; 500]) as Hkey.
    cbv zeta in Hkey. fold key in Hkey.
    assert (Hget : exists c,
               Client.get_docker_client_or_raise (client env) cfg None
                 (default_retry_read env) [404; 500] cache
               = (inr c,
                  (Client.get_docker_client cfg None (default_retry_read env)
                     [404; 500] cache).2)).
    { unfold Client.get_docker_client_or_raise. fold key.
      destruct (Client.get_docker_client cfg None _ _ cache) as [c cache1].
      destruct Hhave as [[c' ->]| ->]; [eauto|].
      destruct (Client._DOCKER_CLIENTS cache !! key); eauto. }
    destruct Hget as [c Hget].
    assert (Hfirst : first.2
                     = (Client.get_docker_client cfg None
                          (default_retry_read env) [404; 500] cache).2)
      by (eapply Hcache; exact Hget).
    rewrite Hfirst. split; [eauto|]. split; [|split].
    + intros key' Hne. unfold Client.get_docker_client. fold key.
      destruct (Client._DOCKER_CLIENTS cache !! key); [reflexivity|].
      cbn. now rewrite lookup_insert_ne.
    + intros [c' Hc']. unfold Client.get_docker_client. fold key.
      now rewrite Hc'.
    + intros Hsame answer. eapply Hhit. rewrite Hsame. exact Hkey.
Qed.

Lemma docker_communicate_reuses_client_witness :
  let down :=
    with_client (inl DockerException) sample_setup in
  (docker_communicate sample_config down sample_session None true (Some 10)
     Client.no_clients).1.1 = Raised DockerException
  /\ (docker_communicate sample_config down sample_session None true
        (Some 10) Client.no_clients).2 = Client.no_clients
  /\ exists cache,
      (docker_communicate sample_config sample_setup sample_silence None true
         (Some 10) Client.no_clients).2 = cache
      /\ is_Some (Client._DOCKER_CLIENTS cache !! (5, [404; 500]))
      /\ (docker_communicate sample_config down sample_session
            (Some ["h"; "i"]%byte) true (Some 10) cache).1.1
         = Returned (["h"; "i"]%byte, []).
Proof.
  intros down. split; [|split].
  - destruct (docker_communicate_reuses_client sample_config down
                sample_setup sample_session [] None None true true (Some 10)
                None Client.no_clients) as [Hfail _].
    now rewrite (Hfail eq_refl DockerException eq_refl).
  - destruct (docker_communicate_reuses_client sample_config down
                sample_setup sample_session [] None None true true (Some 10)
                None Client.no_clients) as [Hfail _].
    now rewrite (Hfail eq_refl DockerException eq_refl).
  - destruct (docker_communicate_reuses_client sample_config sample_setup
                sample_setup sample_silence sample_session None
                (Some ["h"; "i"]%byte) true true (Some 10) (Some 10)
                Client.no_clients) as [_ Hhave].
    destruct (Hhave (or_intror eq_refl)) as (Hkey & _ & _ & Hlater).
    eexists. split; [reflexivity|]. split; [exact Hkey|].
    subst down. destruct (Hlater eq_refl (inl DockerException)) as [-> _].
    reflexivity.
Defined.

(** * The socket when the call is over *)

Lemma communicate_loop_socket start_time timeout script : forall st,
  sock_closed st = false ->
  match communicate_loop start_time timeout script st with
  | (Returned _, st') => sock_closed st' = true
  | (Waiting, st') => sock_closed st' = false
  | (Raised e, st') => e <> TimeoutError -> sock_closed st' = false
  end.
Proof.
  induction script as [|t script IH]; intros st Hopen; [exact Hopen|].
  cbn [communicate_loop]. destruct (loop_test start_time timeout t); [|done].
  pose proof (loop_body_round t st) as [[Hsock _] _].
  destruct (loop_body t st) as [st1|st1|e st1]; cbn [state_of] in Hsock.
  - apply IH. congruence.
  - unfold finish.
    destruct (demultiplex_returns (stream_data (close st1)))
      as (out & err & ->). reflexivity.
  - intros _. congruence.
Qed.

(** X18. The socket is closed by the call only where it returns or gives
    up at the deadline. While the call is in the loop the socket is open,
    and whenever an error other than its own [TimeoutError] leaves the call
    (from attaching, from starting the container, from [select], from a
    read or from a write) the call has not closed the socket. *)
Theorem docker_communicate_socket (cfg : config) (env : setup)
    (script : list tick) (given : option bytes) (start_container : bool)
    (timeout : option Z) (cache : Client.clients) :
  let answer :=
    docker_communicate cfg env script given start_container timeout cache in
  match answer.1.1 with
  | Returned _ => sock_closed answer.1.2 = true
  | Waiting => sock_closed answer.1.2 = false
  | Raised e => e <> TimeoutError -> sock_closed answer.1.2 = false
  end.
Proof.
  cbv zeta. unfold docker_communicate.
  destruct (Client.get_docker_client_or_raise _ _ _ _ _ cache)
    as [[e|docker_client] cache1]; [done|].
  destruct (attach_socket env) as [e|[]]; [done|].
  destruct (if start_container then start env else inr tt) as [e|[]];
    [cbn; now repeat case_match|].
  cbn [fst snd].
  match goal with
  | |- context [communicate_loop _ _ _ ?s] =>
      pose proof (communicate_loop_socket (start_time env) timeout script s)
        as Hloop
  end.
  destruct (communicate_loop _ _ _ _) as [oc st']. cbn [fst snd].
  apply Hloop. now repeat case_match.
Qed.

(** * More on the limit translator *)

Section MergeMore.

Variable cfg : config.
Implicit Types (h : store) (d D : dict) (l : loc).

(** X10. How a merge of a limit set that is not empty can fail, and what
    it leaves behind. It returns the caller's dictionary unless [realtime]
    was not supplied and the merged [cputime] is missing ([KeyError]) or is
    [None] ([TypeError]); when it fails, the defaults have already been
    written into the caller's dictionary. *)
Theorem merge_limits_defaults_failure h l d D :
  h !! l = Some d -> d <> ∅ -> h !! DEFAULT_LIMITS cfg = Some D ->
  exists outcome h',
    merge_limits_defaults cfg (Some l) h = (outcome, h')
    /\ (outcome = inl (KeyError "cputime")
        <-> d !! "realtime" = None /\ (d ∪ D) !! "cputime" = None)
    /\ (outcome = inl TypeError
        <-> d !! "realtime" = None /\ (d ∪ D) !! "cputime" = Some VNone)
    /\ (outcome <> inr l ->
        (outcome = inl (KeyError "cputime") \/ outcome = inl TypeError)
        /\ h' !! l = Some (d ∪ D)).
Proof.
  intros Hl Hne HD. rewrite (merge_run_some cfg h l d D) by assumption.
  cbv zeta. destruct (Dict.contains d "realtime") eqn:Hrt.
  - apply contains_spec in Hrt as [v Hv].
    eexists _, _. split; [reflexivity|]. rewrite Hv.
    repeat split; try done; intros []; done.
  - assert (Hnone : d !! "realtime" = None).
    { destruct (d !! "realtime") eqn:E; [|reflexivity].
      assert (Dict.contains d "realtime" = true); [|congruence].
      apply contains_spec. eauto. }
    unfold Dict.getitem.
    destruct ((d ∪ D) !! "cputime") as [[|b|n|s|bs]|] eqn:Hcpu;
      cbn [mbind exn_bind py_mul_int raise];
      eexists _, _; (split; [reflexivity|]);
      rewrite ?lookup_insert_eq;
      repeat split; try done; try (intros []; done); try (intros [= ?]; done);
      try (intros Hfail; now destruct Hfail);
      try (left; reflexivity); try (right; reflexivity).
Qed.

(** X11. Merging is idempotent on a limit set that is not empty as well:
    merging the dictionary a merge returned changes nothing, whatever the
    defaults are. *)
Theorem merge_limits_defaults_again h l d D r h' :
  h !! l = Some d -> d <> ∅ -> h !! DEFAULT_LIMITS cfg = Some D ->
  merge_limits_defaults cfg (Some l) h = (inr r, h') ->
  r = l /\ merge_limits_defaults cfg (Some r) h' = (inr r, h').
Proof.
  intros Hl Hne HD. rewrite (merge_run_some cfg h l d D) by assumption.
  cbv zeta.
  assert (Hagain : forall m : dict,
            is_Some (m !! "realtime") -> dom D ⊆ dom m ->
            merge_limits_defaults cfg (Some l) (<[l := m]> h)
            = (inr l, <[l := m]> h)).
  { intros m Hrt Hdom.
    assert (Hm : m <> ∅) by (intros ->; destruct Hrt as [v Hv];
                              now rewrite lookup_empty in Hv).
    assert (Hin : Dict.contains m "realtime" = true) by now apply contains_spec.
    destruct (decide (l = DEFAULT_LIMITS cfg)) as [Heq|Hneq].
    - rewrite (merge_run_some cfg _ l m m); try done;
        [|apply lookup_insert_eq|rewrite <- Heq; apply lookup_insert_eq].
      cbv zeta. now rewrite Hin, (idemp_L (∪)), insert_insert_eq.
    - rewrite (merge_run_some cfg _ l m D); try done;
        [|apply lookup_insert_eq|now rewrite lookup_insert_ne].
      cbv zeta. rewrite Hin, insert_insert_eq. do 2 f_equal.
      apply map_eq. intros k. rewrite lookup_union.
      destruct (m !! k) as [v|] eqn:Hk; [now destruct (D !! k)|].
      assert (D !! k = None) as ->; [|reflexivity].
      apply not_elem_of_dom. intros Hk'. apply Hdom in Hk'.
      apply elem_of_dom in Hk' as [v Hv]. congruence. }
  assert (Hdom : dom D ⊆ dom (d ∪ D)) by (rewrite dom_union_L; set_solver).
  destruct (Dict.contains d "realtime") eqn:Hrt.
  - intros [= <- <-]. split; [reflexivity|].
    apply Hagain; [|exact Hdom].
    apply contains_spec in Hrt as [v Hv]. exists v.
    now apply lookup_union_Some_l.
  - destruct (Dict.getitem (d ∪ D) "cputime" ≫= _) as [e|realtime];
      [intros [=]|].
    intros [= <- <-]. split; [reflexivity|].
    apply Hagain.
    + rewrite lookup_insert_eq. eauto.
    + rewrite dom_insert_L. set_solver.
Qed.

End MergeMore.

Lemma merge_limits_defaults_failure_witness :
  exists h',
    merge_limits_defaults sample_config (Some 2%positive)
      (sample_store {[ "cputime" := VNone; "memory" := VInt 8 ]})
    = (inl TypeError, h')
    /\ h' !! 2%positive
       = Some ({[ "cputime" := VNone; "memory" := VInt 8 ]} ∪ sample_defaults).
Proof.
  destruct (merge_limits_defaults_failure sample_config
              (sample_store {[ "cputime" := VNone; "memory" := VInt 8 ]})
              2%positive {[ "cputime" := VNone; "memory" := VInt 8 ]}
              sample_defaults)
    as (outcome & h' & Hrun & _ & Htype & Hleft).
  - reflexivity.
  - intros Hempty.
    apply (f_equal (fun m : dict => m !! "memory")) in Hempty.
    vm_compute in Hempty. discriminate.
  - reflexivity.
  - assert (outcome = inl TypeError) as ->.
    { apply Htype. split; reflexivity. }
    exists h'. split; [exact Hrun|]. apply Hleft. discriminate.
Defined.

Lemma merge_limits_defaults_again_witness :
  exists h',
    merge_limits_defaults sample_config (Some 2%positive)
      (sample_store {[ "cputime" := VInt 10 ]}) = (inr 2%positive, h')
    /\ merge_limits_defaults sample_config (Some 2%positive) h'
       = (inr 2%positive, h').
Proof.
  destruct (merge_limits_defaults sample_config (Some 2%positive)
              (sample_store {[ "cputime" := VInt 10 ]})) as [outcome h'] eqn:Hrun.
  assert (outcome = inr 2%positive) as ->.
  { vm_compute in Hrun. congruence. }
  exists h'. split; [reflexivity|].
  apply (merge_limits_defaults_again sample_config
           (sample_store {[ "cputime" := VInt 10 ]}) 2%positive
           {[ "cputime" := VInt 10 ]} sample_defaults 2%positive h').
  - reflexivity.
  - intros Hempty.
    apply (f_equal (fun m : dict => m !! "cputime")) in Hempty.
    vm_compute in Hempty. discriminate.
  - reflexivity.
  - exact Hrun.
Defined.

(** * From the merged limits to the ulimits *)

(** What [create_ulimits] does on a limit set that holds [cputime]: it
    raises [ValueError] when the constructor of [Ulimit] refuses [cputime]
    or the [file_size] there is, and returns otherwise. *)
Lemma create_ulimits_run (m : dict) (cputime : value) :
  m !! "cputime" = Some cputime ->
  (refused cputime
   \/ (exists file_size, m !! "file_size" = Some file_size /\ refused file_size) ->
   create_ulimits m = inl ValueError)
  /\ (~ (refused cputime
         \/ exists file_size,
             m !! "file_size" = Some file_size /\ refused file_size) ->
      exists ulimits,
        create_ulimits m = inr ulimits
        /\ (cpu_entry cputime ∈ default [] ulimits <-> truthy cputime = true)).
Proof.
  intros Hcpu. unfold create_ulimits, Dict.getitem. rewrite Hcpu.
  cbn [mbind exn_bind]. unfold cpu_entry.
  destruct (new_Ulimit_refused "cpu" cputime) as [Hbad Hgood].
  destruct (refused_dec cputime) as [Hc|Hc].
  { destruct Hc as [Htrue Hint]. rewrite Htrue, (Hbad (conj Htrue Hint)).
    split; [reflexivity|]. intros Hno. destruct Hno. left. now split. }
  rewrite (Hgood Hc). clear Hbad Hgood.
  destruct (m !! "file_size") as [file_size|].
  - destruct (new_Ulimit_refused "fsize" file_size) as [Hbad Hgood].
    destruct (refused_dec file_size) as [Hf|Hf].
    + rewrite (Hbad Hf). split.
      * intros _. now destruct (truthy cputime).
      * intros Hno. destruct Hno. right. eauto.
    + rewrite (Hgood Hf). split.
      * intros [?|(fs & [= <-] & ?)]; contradiction.
      * intros _. destruct (truthy cputime);
          cbn [mbind exn_bind mret exn_ret app]; eexists;
          (split; [reflexivity|]); cbn [default];
          repeat setoid_rewrite elem_of_cons;
          repeat setoid_rewrite elem_of_nil;
          firstorder (try congruence).
  - split.
    + intros [?|(fs & [=] & ?)]; contradiction.
    + intros _. destruct (truthy cputime);
        cbn [mbind exn_bind mret exn_ret app]; eexists;
        (split; [reflexivity|]); cbn [default];
        repeat setoid_rewrite elem_of_cons;
        repeat setoid_rewrite elem_of_nil;
        firstorder (try congruence).
Qed.

(** X12. When the defaults hold [cputime], [create_ulimits] does not miss
    the key on what a successful merge returns, and the [cputime] it reads
    is the caller's where the caller gave one, the default otherwise. It
    raises, with [ValueError], exactly when the constructor of [Ulimit]
    refuses this [cputime] or the [file_size] of the merged set (an object
    that is truthy and not an integer); otherwise it returns, and the cpu
    entry is among the ulimits exactly when [cputime] is truthy. *)
Theorem create_ulimits_after_merge (cfg : config) (h h' : store)
    (limits : option loc) (D : dict) (r : loc) :
  (forall l, limits = Some l -> is_Some (h !! l)) ->
  h !! DEFAULT_LIMITS cfg = Some D ->
  is_Some (D !! "cputime") ->
  merge_limits_defaults cfg limits h = (inr r, h') ->
  exists m cputime,
    h' !! r = Some m
    /\ (supplied h limits ∪ D) !! "cputime" = Some cputime
    /\ m !! "cputime" = Some cputime
    /\ (forall key, create_ulimits m <> inl (KeyError key))
    /\ (create_ulimits m = inl ValueError
        <-> refused cputime
            \/ exists file_size,
                m !! "file_size" = Some file_size /\ refused file_size)
    /\ (create_ulimits m <> inl ValueError ->
        exists ulimits,
          create_ulimits m = inr ulimits
          /\ (cpu_entry cputime ∈ default [] ulimits
              <-> truthy cputime = true)).
Proof.
  intros Hlive HD [cd Hcd] Hrun.
  assert (Hmerged : exists cputime,
             (supplied h limits ∪ D) !! "cputime" = Some cputime).
  { destruct (supplied h limits !! "cputime") as [c|] eqn:Hc.
    - exists c. now apply lookup_union_Some_l.
    - exists cd. rewrite lookup_union, Hc, Hcd. reflexivity. }
  destruct Hmerged as [cputime Hcpu].
  assert (Hm : exists m, h' !! r = Some m /\ m !! "cputime" = Some cputime).
  { destruct (decide (supplied h limits = ∅)) as [Hempty|Hfull].
    - rewrite merge_run_falsy in Hrun by assumption.
      injection Hrun as <- <-. exists D. split; [exact HD|].
      now rewrite Hempty, (left_id_L ∅ (∪)) in Hcpu.
    - destruct limits as [l|]; [|done].
      destruct (Hlive l eq_refl) as [d Hd].
      assert (Hsup : supplied h (Some l) = d) by (simpl; now rewrite Hd).
      rewrite Hsup in Hfull, Hcpu. clear Hsup.
      rewrite (merge_run_some cfg h l d D) in Hrun by assumption.
      cbv zeta in Hrun. destruct (Dict.contains d "realtime").
      + injection Hrun as <- <-. exists (d ∪ D).
        now rewrite lookup_insert_eq.
      + destruct (Dict.getitem (d ∪ D) "cputime" ≫= _) as [e|realtime];
          [discriminate|].
        injection Hrun as <- <-. eexists. rewrite lookup_insert_eq.
        split; [reflexivity|]. now rewrite lookup_insert_ne. }
  destruct Hm as (m & Hr & Hmcpu).
  destruct (create_ulimits_run m cputime Hmcpu) as [Hbad Hgood].
  exists m, cputime. split; [exact Hr|]. split; [exact Hcpu|].
  split; [exact Hmcpu|].
  assert (Hcases : (refused cputime
                    \/ exists file_size,
                        m !! "file_size" = Some file_size /\ refused file_size)
                   \/ ~ (refused cputime
                         \/ exists file_size,
                             m !! "file_size" = Some file_size
                             /\ refused file_size)).
  { destruct (refused_dec cputime) as [Hc|Hc]; [now left; left|].
    destruct (m !! "file_size") as [file_size|];
      [destruct (refused_dec file_size) as [Hf|Hf]|].
    - left. right. eauto.
    - right. intros [?|(fs & [= <-] & ?)]; contradiction.
    - right. intros [?|(fs & [=] & ?)]; contradiction. }
  destruct Hcases as [Hyes|Hno].
  - rewrite (Hbad Hyes). split; [discriminate|]. split; [done|]. done.
  - destruct (Hgood Hno) as (ulimits & Hul & Hentry). rewrite Hul.
    split; [discriminate|]. split; [split; [discriminate|contradiction]|].
    intros _. eauto.
Qed.

Lemma create_ulimits_after_merge_witness :
  (exists h' m ulimits,
      merge_limits_defaults sample_config (Some 2%positive)
        (sample_store {[ "cputime" := VInt 20 ]}) = (inr 2%positive, h')
      /\ h' !! 2%positive = Some m
      /\ create_ulimits m = inr ulimits
      /\ cpu_entry (VInt 20) ∈ default [] ulimits)
  /\ (exists h' m,
        merge_limits_defaults sample_config (Some 2%positive)
          (sample_store {[ "cputime" := VStr "10"; "realtime" := VInt 1 ]})
        = (inr 2%positive, h')
        /\ h' !! 2%positive = Some m
        /\ create_ulimits m = inl ValueError).
Proof.
  split.
  - destruct (merge_limits_defaults sample_config (Some 2%positive)
                (sample_store {[ "cputime" := VInt 20 ]}))
      as [outcome h'] eqn:Hrun.
    assert (outcome = inr 2%positive) as ->.
    { vm_compute in Hrun. congruence. }
    destruct (create_ulimits_after_merge sample_config
                (sample_store {[ "cputime" := VInt 20 ]}) h' (Some 2%positive)
                sample_defaults 2%positive)
      as (m & cputime & Hm & Hcpu & _ & _ & Hvalue & Hreturns).
    + intros l [= <-]. vm_compute. eauto.
    + reflexivity.
    + vm_compute. eauto.
    + exact Hrun.
    + assert (cputime = VInt 20) as ->.
      { vm_compute in Hcpu. congruence. }
      destruct Hreturns as (ulimits & Hul & Hentry).
      { intros Hraise. apply Hvalue in Hraise as [[_ Hint]|(fs & Hfs & _)].
        - discriminate.
        - vm_compute in Hrun. injection Hrun as <-.
          vm_compute in Hm. injection Hm as <-.
          vm_compute in Hfs. discriminate. }
      exists h', m, ulimits. repeat split; try assumption. now apply Hentry.
  - destruct (merge_limits_defaults sample_config (Some 2%positive)
                (sample_store {[ "cputime" := VStr "10"; "realtime" := VInt 1 ]}))
      as [outcome h'] eqn:Hrun.
    assert (outcome = inr 2%positive) as ->.
    { vm_compute in Hrun. congruence. }
    destruct (create_ulimits_after_merge sample_config
                (sample_store {[ "cputime" := VStr "10"; "realtime" := VInt 1 ]})
                h' (Some 2%positive) sample_defaults 2%positive)
      as (m & cputime & Hm & Hcpu & _ & _ & Hvalue & _).
    + intros l [= <-]. vm_compute. eauto.
    + reflexivity.
    + vm_compute. eauto.
    + exact Hrun.
    + assert (cputime = VStr "10") as ->.
      { vm_compute in Hcpu. congruence. }
      exists h', m. split; [reflexivity|]. split; [exact Hm|].
      apply Hvalue. left. split; reflexivity.
Defined.

(** * More on the truncation *)

Section TruncateMore.

Implicit Types (result truncated : dict) (k : string) (v : value).

Lemma truncate_value_fixed k bs v' :
  k ∈ ({["stdout"; "stderr"]} : gset string) ->
  truncate_value k (VBytes bs) = inr v' ->
  (exists bs', v' = VBytes bs' /\ Bytes.len bs' <= truncated_length)
  /\ truncate_value k v' = inr v'.
Proof.
  intros Hk. rewrite !truncate_value_bytes by done.
  assert (Hmarker : Bytes.len truncation_marker = 18) by reflexivity.
  unfold truncated_length. rewrite Hmarker.
  destruct (Z.leb_spec (Bytes.len bs) MAX_OUTPUT_LENGTH) as [Hshort|Hlong];
    intros [= <-].
  - split; [exists bs; split; [reflexivity|lia]|].
    rewrite truncate_value_bytes by done.
    now destruct (Z.leb_spec (Bytes.len bs) MAX_OUTPUT_LENGTH); [|lia].
  - assert (Hhead : length (take (Z.to_nat MAX_OUTPUT_LENGTH) bs)
                    = Z.to_nat MAX_OUTPUT_LENGTH).
    { rewrite length_take. unfold Bytes.len in Hlong. lia. }
    assert (Hlen : Bytes.len (take (Z.to_nat MAX_OUTPUT_LENGTH) bs
                                ++ truncation_marker)
                   = MAX_OUTPUT_LENGTH + 18).
    { rewrite len_app, Hmarker. unfold Bytes.len at 1. rewrite Hhead.
      unfold MAX_OUTPUT_LENGTH. lia. }
    split; [eexists; split; [reflexivity|lia]|].
    rewrite truncate_value_bytes by done. rewrite Hlen.
    destruct (Z.leb_spec (MAX_OUTPUT_LENGTH + 18) MAX_OUTPUT_LENGTH); [lia|].
    do 3 f_equal. rewrite <- Hhead at 1. apply take_app_length.
Qed.

End TruncateMore.

(** X13. Truncating is idempotent: on a result whose outputs are byte
    strings, truncating what [truncate_result] returned gives it back
    unchanged, although a shortened output, marker included, is longer
    than the cap. *)
Theorem truncate_result_idempotent (result : dict) :
  (forall k v, k ∈ ({["stdout"; "stderr"]} : gset string) ->
               result !! k = Some v -> exists bs, v = VBytes bs) ->
  exists truncated,
    truncate_result result = inr truncated
    /\ truncate_result truncated = inr truncated.
Proof.
  intros Hbytes.
  assert (Hvalue : forall k v, result !! k = Some v ->
            exists v', truncate_value k v = inr v'
                       /\ truncate_value k v' = inr v').
  { intros k v Hk.
    destruct (decide (k ∈ ({["stdout"; "stderr"]} : gset string))) as [Hin|Hout].
    - destruct (Hbytes k v Hin Hk) as [bs ->].
      rewrite truncate_value_bytes by done. eexists. split; [reflexivity|].
      eapply truncate_value_fixed; [exact Hin|].
      now rewrite truncate_value_bytes.
    - exists v. now rewrite truncate_value_other. }
  destruct (truncate_result_lookup result) as (truncated & Hrun & Hdom & Hall).
  { intros k v Hk. destruct (Hvalue k v Hk) as (v' & Hv' & _). eauto. }
  exists truncated. split; [exact Hrun|].
  assert (Hfixed : forall k v', truncated !! k = Some v' ->
            truncate_value k v' = inr v').
  { intros k v' Hk.
    assert (Hin : k ∈ dom result) by (rewrite <- Hdom; apply elem_of_dom; eauto).
    apply elem_of_dom in Hin as [v Hv].
    destruct (Hall k v Hv) as (w & Hw & Hkw).
    destruct (Hvalue k v Hv) as (w' & Hw' & Hfix). congruence. }
  destruct (truncate_result_lookup truncated) as (again & -> & Hdom' & Hall').
  { intros k v' Hk. exists v'. now apply Hfixed. }
  f_equal. apply map_eq. intros k.
  destruct (truncated !! k) as [v'|] eqn:Hk.
  - destruct (Hall' k v' Hk) as (w & Hw & ->).
    rewrite (Hfixed k v' Hk) in Hw. congruence.
  - apply not_elem_of_dom. rewrite Hdom'. now apply not_elem_of_dom.
Qed.

Lemma truncate_result_idempotent_witness :
  exists truncated,
    truncate_result sample_result = inr truncated
    /\ truncate_result truncated = inr truncated.
Proof.
  apply truncate_result_idempotent.
  intros k v Hk Hv. apply elem_of_union in Hk as [Hk|Hk];
    apply elem_of_singleton in Hk; subst k;
    vm_compute in Hv; injection Hv as <-; eauto.
Defined.

(** X14. After truncation no output is longer than the cap plus the
    marker, 118 bytes, whatever its length was. *)
Theorem truncate_result_bound (result truncated : dict) (k : string)
    (v : value) :
  (forall k v, k ∈ ({["stdout"; "stderr"]} : gset string) ->
               result !! k = Some v -> exists bs, v = VBytes bs) ->
  truncate_result result = inr truncated ->
  k ∈ ({["stdout"; "stderr"]} : gset string) ->
  truncated !! k = Some v ->
  exists bs, v = VBytes bs /\ Bytes.len bs <= truncated_length
             /\ truncated_length = 118.
Proof.
  intros Hbytes Hrun Hk Hv.
  destruct (truncate_result_lookup result) as (truncated' & Hrun' & Hdom & Hall).
  { intros k' v' Hk'.
    destruct (decide (k' ∈ ({["stdout"; "stderr"]} : gset string))) as [Hin|Hout].
    - destruct (Hbytes k' v' Hin Hk') as [bs ->].
      rewrite truncate_value_bytes by done. eauto.
    - rewrite truncate_value_other by done. eauto. }
  assert (truncated' = truncated) as -> by congruence.
  assert (Hin : k ∈ dom result) by (rewrite <- Hdom; apply elem_of_dom; eauto).
  apply elem_of_dom in Hin as [v0 Hv0].
  destruct (Hall k v0 Hv0) as (w & Hw & Hkw).
  assert (w = v) as -> by congruence.
  destruct (Hbytes k v0 Hk Hv0) as [bs0 ->].
  destruct (truncate_value_fixed k bs0 v Hk Hw) as [(bs & -> & Hlen) _].
  exists bs. split; [reflexivity|]. split; [exact Hlen|reflexivity].
Qed.

Lemma truncate_result_bound_witness :
  exists truncated bs,
    truncate_result sample_result = inr truncated
    /\ truncated !! "stdout" = Some (VBytes bs)
    /\ Bytes.len bs <= 118.
Proof.
  destruct (truncate_result sample_result) as [e|truncated] eqn:Hrun.
  { vm_compute in Hrun. discriminate. }
  destruct (truncated !! "stdout") as [v|] eqn:Hv.
  2:{ apply (f_equal (fun r => match r with
                               | inr t => t !! "stdout"
                               | inl _ => None
                               end)) in Hrun.
      rewrite Hv in Hrun. vm_compute in Hrun. discriminate. }
  destruct (truncate_result_bound sample_result truncated "stdout" v)
    as (bs & -> & Hlen & Hcap).
  - intros k v' Hk Hv'. apply elem_of_union in Hk as [Hk|Hk];
      apply elem_of_singleton in Hk; subst k;
      vm_compute in Hv'; injection Hv' as <-; eauto.
  - exact Hrun.
  - set_solver.
  - exact Hv.
  - exists truncated, bs. split; [reflexivity|]. split; [exact Hv|].
    now rewrite <- Hcap.
Defined.

Section TruncateErrors.

Implicit Types (result : dict) (k : string) (v : value).

Lemma truncate_value_error k v e :
  truncate_value k v = inl e -> e = TypeError.
Proof.
  unfold truncate_value. case_bool_decide; [|discriminate].
  destruct v as [|b|n|s|bs]; cbn [py_len mbind exn_bind raise];
    try (now intros [= <-]);
    case_match;
    cbn [py_slice_to py_add_bytes mbind exn_bind mret exn_ret raise];
    intros [=]; now subst.
Qed.

(** One entry that cannot be handled makes the whole call raise. *)
Lemma truncate_result_raises result :
  (exists k v, result !! k = Some v /\ truncate_value k v = inl TypeError) ->
  truncate_result result = inl TypeError.
Proof.
  unfold truncate_result.
  apply (map_fold_weak_ind (fun (run : exn + dict) (m : dict) =>
    (forall e, run = inl e -> e = TypeError)
    /\ ((exists k v, m !! k = Some v /\ truncate_value k v = inl TypeError) ->
        run = inl TypeError))).
  - split; [discriminate|]. intros (k & v & Hk & _).
    now rewrite lookup_empty in Hk.
  - intros k v m run Hfresh [Herr Hbad]. split.
    + intros e. destruct run as [e'|truncated]; cbn [mbind exn_bind].
      * intros [= <-]. now apply Herr.
      * destruct (truncate_value k v) as [e'|v'] eqn:Hv; [|discriminate].
        intros [= <-]. now apply truncate_value_error in Hv.
    + intros (k' & v' & Hk' & Hv').
      destruct run as [e'|truncated]; cbn [mbind exn_bind].
      * f_equal. now apply Herr.
      * destruct (decide (k = k')) as [<-|Hne].
        -- rewrite lookup_insert_eq in Hk'. injection Hk' as <-.
           now rewrite Hv'.
        -- rewrite lookup_insert_ne in Hk' by done.
           assert (inr truncated = inl TypeError :> exn + dict); [|discriminate].
           apply Hbad. eauto.
Qed.

End TruncateErrors.

(** X15. An output that is not a byte string can make the call raise: with
    [None], a boolean or an integer under [stdout] or [stderr], or a text
    longer than the cap, [truncate_result] raises [TypeError] and returns
    nothing, whatever else the result holds. *)
Theorem truncate_result_type_error (result : dict) (k : string) (v : value) :
  k ∈ ({["stdout"; "stderr"]} : gset string) ->
  result !! k = Some v ->
  match v with
  | VBytes _ => False
  | VStr s => Z.of_nat (String.length s) > MAX_OUTPUT_LENGTH
  | _ => True
  end ->
  truncate_result result = inl TypeError.
Proof.
  intros Hk Hv Hbad. apply truncate_result_raises. exists k, v.
  split; [exact Hv|]. unfold truncate_value.
  rewrite bool_decide_eq_true_2 by exact Hk.
  destruct v as [|b|n|s|bs]; try reflexivity; [|done].
  cbn [py_len mbind exn_bind].
  destruct (Z.gtb_spec (Z.of_nat (String.length s)) MAX_OUTPUT_LENGTH);
    [reflexivity|lia].
Qed.

Lemma truncate_result_type_error_witness :
  truncate_result {[ "exit_code" := VNone; "stdout" := VBytes [];
                     "stderr" := VNone ]} = inl TypeError.
Proof.
  apply (truncate_result_type_error _ "stderr" VNone).
  - set_solver.
  - reflexivity.
  - exact I.
Defined.

(** * More on the client cache *)

Section CacheMore.

Variable cfg : config.
Implicit Types (st : Client.clients) (r : Client.request).

Lemma cache_sound_serve st r :
  cache_sound st -> cache_sound (Client.serve cfg st r).
Proof.
  intros Hst. unfold Client.serve, Client.get_docker_client.
  set (key0 := (Client.req_retry_read r, Client.req_retry_status_forcelist r)).
  destruct (Client._DOCKER_CLIENTS st !! key0) as [hit|] eqn:Hhit;
    [exact Hst|].
  cbn [snd]. set (new := fresh (dom (Client.objects st))).
  assert (Hnew : Client.objects st !! new = None).
  { apply not_elem_of_dom, is_fresh. }
  assert (Hold : forall key client,
            Client._DOCKER_CLIENTS st !! key = Some client -> client <> new).
  { intros key client Hkey ->.
    destruct (Hst key new Hkey) as [(object & _ & Hobj & _) _]. congruence. }
  intros key client. cbn [Client._DOCKER_CLIENTS Client.objects].
  destruct (decide (key0 = key)) as [<-|Hne].
  - rewrite lookup_insert_eq. intros [= <-]. split.
    + eexists _, _. rewrite lookup_insert_eq. repeat split; reflexivity.
    + intros key'. destruct (decide (key0 = key')) as [<-|Hne']; [done|].
      rewrite lookup_insert_ne by done. intros Hkey'.
      now destruct (Hold key' new Hkey').
  - rewrite lookup_insert_ne by done. intros Hkey.
    destruct (Hst key client Hkey) as [(object & retries & Hobj & Hrest) Huniq].
    split.
    + exists object, retries. rewrite lookup_insert_ne; [now split|].
      intros <-. now destruct (Hold key new Hkey).
    + intros key'. destruct (decide (key0 = key')) as [<-|Hne'].
      * rewrite lookup_insert_eq. intros [= <-].
        now destruct (Hold key new Hkey).
      * rewrite lookup_insert_ne by done. apply Huniq.
Qed.

Lemma cache_sound_serve_all requests : forall st,
  cache_sound st -> cache_sound (Client.serve_all cfg st requests).
Proof.
  induction requests as [|r requests IH]; intros st Hst; [exact Hst|].
  apply IH. now apply cache_sound_serve.
Qed.

End CacheMore.

(** X16. Starting from an empty cache, whatever calls are made: a cached
    client is an object that exists, its adapter carries the read retries
    and the status list of the key it is cached under, and no client is
    cached under two keys, so calls with different retry parameters never
    share a client. *)
Theorem get_docker_client_cache_sound (cfg : config) (st : Client.clients) :
  reached cfg st -> cache_sound st.
Proof.
  intros [requests ->]. apply cache_sound_serve_all.
  intros key client Hkey. cbn in Hkey. now rewrite lookup_empty in Hkey.
Qed.

Lemma get_docker_client_cache_sound_witness :
  let st :=
    Client.serve_all sample_config Client.no_clients
      [ {| Client.req_base_url := None; Client.req_retry_read := 5;
           Client.req_retry_status_forcelist := [500] |};
        {| Client.req_base_url := None; Client.req_retry_read := 5;
           Client.req_retry_status_forcelist := [404; 500] |} ] in
  reached sample_config st /\ cache_sound st.
Proof.
  intros st.
  assert (Hreached : reached sample_config st) by (eexists; reflexivity).
  split; [exact Hreached|].
  exact (get_docker_client_cache_sound sample_config st Hreached).
Defined.

(** * File names *)

(** X17. [filter_filenames] keeps the order of the files and works file by
    file: the names of two lists joined are the names of the one followed
    by the names of the other; a value is among the names exactly when it
    is the name of one of the files; files without a name are passed over
    without an error, so there are as many names as files exactly when
    every file has one. *)
Theorem filter_filenames_names :
  (forall files files' : list dict,
      filter_filenames (files ++ files')
      = filter_filenames files ++ filter_filenames files')
  /\ (forall (files : list dict) (name : value),
         name ∈ filter_filenames files
         <-> exists file, file ∈ files /\ file !! "name" = Some name)
  /\ (forall files : list dict,
         (length (filter_filenames files) <= length files)%nat
         /\ (length (filter_filenames files) = length files
             <-> Forall (fun file : dict => is_Some (file !! "name")) files)).
Proof.
  split; [|split].
  - intros files files'. unfold filter_filenames. apply flat_map_app.
  - intros files name. unfold filter_filenames.
    rewrite list_elem_of_In, in_flat_map. split.
    + intros (file & Hin & Hname). exists file.
      rewrite list_elem_of_In. split; [exact Hin|].
      destruct (file !! "name") as [v|]; [|destruct Hname].
      destruct Hname as [->|[]]. reflexivity.
    + intros (file & Hin & Hname). exists file.
      rewrite <- list_elem_of_In. split; [exact Hin|].
      rewrite Hname. now left.
  - intros files. induction files as [|file files [IHle IHeq]].
    + split; [reflexivity|]. split; [constructor|reflexivity].
    + cbn [filter_filenames flat_map length].
      fold (filter_filenames files). rewrite length_app.
      destruct (file !! "name") as [v|] eqn:Hname; cbn [length].
      * split; [lia|]. rewrite Forall_cons. split.
        -- intros Hlen. split; [now rewrite Hname|]. apply IHeq. lia.
        -- intros [_ Hall]. apply IHeq in Hall. lia.
      * split; [lia|]. rewrite Forall_cons. split; [lia|].
        intros [[v Hv] _]. congruence.
Qed.
